(** * A shallow embedding of the multiplayer viewport client (src/game.js)

    The client is one JavaScript class, [GameClient], whose methods mutate
    the fields of [this] and talk to three platform objects: a WebSocket, a
    2D canvas context and the timer / animation-frame scheduler.

    - The object's fields are a record; every method is a function in a
      small monad that threads the record, collects the calls made to the
      platform in a trace, and can complete abruptly (a thrown exception)
      while keeping the mutations made so far, as JavaScript does.
    - The numbers held in fields and messages are rationals ([Q]); NaN and
      the infinities are not among them.  Sums, differences, minima, maxima
      and comparisons are written as the source writes them.  The one
      computation whose outcome the source decides by a square root, the
      distance test of the homing step, is carried out as the source
      carries it out, in binary64 arithmetic ([toDouble], [PrimFloat]).  The
      one place where the source can produce NaN from numbers (an aspect
      ratio over a height of zero) is an explicit case distinction in
      [avatarSize].
    - Objects used as dictionaries ([players], [avatars]) are finite maps
      keyed by strings and hold their own properties only: a key that names
      a property every object inherits ([constructor], [toString], ...) and
      that the dictionary does not hold itself is looked up as absent here,
      where JavaScript finds the inherited property.  [for ... in] visits
      the entries in the order of [map_to_list], JavaScript in the order of
      insertion; the statements below are about what is done for each entry
      and hold for any order.
    - Inbound messages are the well-formed payloads of the protocol
      ([InMsg]); text that is not JSON, or JSON that lacks a field the
      handler reads, is not modelled.
    - [src/game.js] holds three revisions of the class.  The embedding follows
      the most complete one (lines 380-905); the variant of [drawAvatar]
      of the earliest revision (lines 1087-1158) is embedded separately as
      [drawAvatar_rev0]. *)

From Stdlib Require Import QArith Qminmax Qabs Lqa.
From Stdlib Require Import Floats.
From stdpp Require Import gmap strings list fin_maps.

Local Open Scope Q_scope.

(** ** Numbers *)

(** [a < b] and [a >= b] on numbers, as the booleans JavaScript computes. *)
Definition Qltb (a b : Q) : bool := if Qlt_le_dec a b then true else false.
Definition Qgeb (a b : Q) : bool := if Qlt_le_dec a b then false else true.
Definition Qgtb (a b : Q) : bool := Qltb b a.

(** The double nearest to a rational, ties to even, and an infinity beyond
    the range: the number itself when it is a double.  From 2^-1021 down the
    doubles are the multiples of 2^-1074, and the quotient is rounded to an
    integer number of them; above, the quotient is cut to 60 significant
    bits, the last of them set when anything was cut off, and rounded to 53
    once. *)
Definition toDouble (q : Q) : float :=
  let n := Z.abs (Qnum q) in
  let d := Zpos (Qden q) in
  if (n =? 0)%Z then 0%float
  else
    let e := (Z.log2 n - Z.log2 d)%Z in
    let f :=
      if (e <? -1021)%Z then
        let m := (n * 2 ^ 1074 / d)%Z in
        let r := (n * 2 ^ 1074 mod d)%Z in
        let m' :=
          (if (d <? 2 * r) || ((d =? 2 * r) && Z.odd m) then m + 1 else m)%Z in
        Z.ldexp (PrimFloat.of_uint63 (Uint63.of_Z m')) (-1074)
      else
        let s := (60 - e)%Z in
        let num := (if 0 <=? s then n * 2 ^ s else n)%Z in
        let den := (if 0 <=? s then d else d * 2 ^ (- s))%Z in
        let m := (num / den)%Z in
        let m' := (if num mod den =? 0 then m else Z.lor m 1)%Z in
        Z.ldexp (PrimFloat.of_uint63 (Uint63.of_Z m')) (- s) in
    if (Qnum q <? 0)%Z then (- f)%float else f.

(** ** Data model *)

Inductive Facing := north | south | east | west.

Inductive Direction := DirUp | DirDown | DirLeft | DirRight.

(** A player as the server sends it. *)
Record Player := {
  id : string;
  x : Q;
  y : Q;
  facing : Facing;
  animationFrame : nat;
  username : string;
  avatar : string
}.

(** An [Image] element.  Its [width] and [height] read 0 until the source
    has been decoded. *)
Inductive ImgStatus := Pending | Complete (w h : N) | Broken.

Record Img := { src : string; status : ImgStatus }.

Definition img_width (i : Img) : Q :=
  match status i with Complete w _ => inject_Z (Z.of_N w) | _ => 0 end.
Definition img_height (i : Img) : Q :=
  match status i with Complete _ h => inject_Z (Z.of_N h) | _ => 0 end.

(** The three frame sets of an avatar; west has none.  A definition that
    lacked one of the three lists would make the decode pass throw on it;
    such definitions are outside the model. *)
Record Frames (A : Type) := { f_north : list A; f_south : list A; f_east : list A }.
Arguments f_north {A} _.
Arguments f_south {A} _.
Arguments f_east {A} _.

Record Avatar := {
  name : string;
  frames : Frames string;
  parsedFrames : option (Frames Img)
}.

Record Point := { px : Q; py : Q }.

(** ** The platform objects *)

(** [WebSocket.readyState]. *)
Inductive ReadyState := CONNECTING | OPEN | CLOSING | CLOSED.

Inductive ConnectionStatus :=
  StConnecting | StConnected | StDisconnected | StError.

(** The canvas transform [a b c d e f]: a point [(u, v)] of user space is
    drawn at [(a*u + c*v + e, b*u + d*v + f)]. *)
Record Matrix := { ma : Q; mb : Q; mc : Q; md : Q; me : Q; mf : Q }.

Definition identity : Matrix :=
  {| ma := 1; mb := 0; mc := 0; md := 1; me := 0; mf := 0 |}.

Definition device_x (T : Matrix) (u v : Q) : Q := ma T * u + mc T * v + me T.
Definition device_y (T : Matrix) (u v : Q) : Q := mb T * u + md T * v + mf T.

(** The drawing state that [save] pushes and [restore] pops. *)
Record DrawState := {
  transform : Matrix;
  fillStyle : string;
  strokeStyle : string;
  lineWidth : Q;
  font : string;
  textAlign : string;
  lineDash : list Q
}.

Definition initialDrawState : DrawState :=
  {| transform := identity; fillStyle := "#000000"; strokeStyle := "#000000";
     lineWidth := 1; font := "10px sans-serif"; textAlign := "start";
     lineDash := [] |}.

Record Ctx := { cur : DrawState; saved : list DrawState }.

Definition initialCtx : Ctx := {| cur := initialDrawState; saved := [] |}.

(** What reaches the drawing surface, with the drawing state in force. *)
Inductive CanvasOp :=
  | ClearRect (rx ry rw rh : Q)
  | Blit (img : Img) (T : Matrix) (sx sy sw sh dx dy dw dh : Q)
  | StrokeText (st : DrawState) (text : string) (tx ty : Q)
  | FillText (st : DrawState) (text : string) (tx ty : Q)
  | BeginPath
  | ArcFull (cx cy r : Q)
  | MoveTo (mx my : Q)
  | LineTo (lx ly : Q)
  | Stroke (st : DrawState).

Inductive OutMsg :=
  | MsgJoinGame (user : string)
  | MsgMove (d : Direction)
  | MsgStop.

Inductive Callback := CbStartMovingToTarget | CbGameLoop.

Inductive Method := MUpdate | MDraw.

(** The calls a method makes to its collaborators, in order. *)
Inductive Effect :=
  | WsSend (m : OutMsg)      (** [send] on an open socket: transmitted *)
  | WsDiscard (m : OutMsg)   (** [send] on a closing or closed socket: dropped *)
  | SetTimeout (cb : Callback) (ms : Q)
  | RequestAnimationFrame (cb : Callback)
  | Canvas (op : CanvasOp)
  | DecodeFrame (avatarName : string) (dir : Facing) (index : nat) (data : string)
  | ConsoleError (text : string)
  | ConsoleLog (text : string)
  | PreventDefault
  | Enter (m : Method).      (** a marker: [update] or [draw] is entered *)

(** Inbound messages, one variant per [action]. *)
Inductive InMsg :=
  | JoinGameOk (playerId : string) (ps : gmap string Player) (avs : gmap string Avatar)
  | JoinGameFail (error : string)
  | PlayerJoined (p : Player) (a : Avatar)
  | PlayersMoved (ps : gmap string Player)
  | PlayerLeft (playerId : string)
  | UnknownAction (action : string).

(** ** The client object *)

Record GameClient := {
  width : Q;                         (** [canvas.width] *)
  height : Q;                        (** [canvas.height] *)
  ctx : Ctx;
  worldImage : option Img;
  worldWidth : Q;
  worldHeight : Q;
  myPlayerId : option string;
  players : gmap string Player;
  avatars : gmap string Avatar;
  websocket : option ReadyState;
  cameraX : Q;
  cameraY : Q;
  keysPressed : gset string;
  isMoving : bool;
  clickTarget : option Point;
  connectionStatus : ConnectionStatus;
  lastFrameTime : Q;
  targetFPS : Q
}.

(** Assignments to the fields of [this]. *)
Section Assign.
Variable c : GameClient.

Definition set_width (v : Q) : GameClient :=
    {| width := v; height := height c; ctx := ctx c;
       worldImage := worldImage c; worldWidth := worldWidth c;
       worldHeight := worldHeight c; myPlayerId := myPlayerId c;
       players := players c; avatars := avatars c; websocket := websocket c;
       cameraX := cameraX c; cameraY := cameraY c;
       keysPressed := keysPressed c; isMoving := isMoving c;
       clickTarget := clickTarget c; connectionStatus := connectionStatus c;
       lastFrameTime := lastFrameTime c; targetFPS := targetFPS c |}.

Definition set_height (v : Q) : GameClient :=
    {| width := width c; height := v; ctx := ctx c;
       worldImage := worldImage c; worldWidth := worldWidth c;
       worldHeight := worldHeight c; myPlayerId := myPlayerId c;
       players := players c; avatars := avatars c; websocket := websocket c;
       cameraX := cameraX c; cameraY := cameraY c;
       keysPressed := keysPressed c; isMoving := isMoving c;
       clickTarget := clickTarget c; connectionStatus := connectionStatus c;
       lastFrameTime := lastFrameTime c; targetFPS := targetFPS c |}.

Definition set_ctx (v : Ctx) : GameClient :=
    {| width := width c; height := height c; ctx := v;
       worldImage := worldImage c; worldWidth := worldWidth c;
       worldHeight := worldHeight c; myPlayerId := myPlayerId c;
       players := players c; avatars := avatars c; websocket := websocket c;
       cameraX := cameraX c; cameraY := cameraY c;
       keysPressed := keysPressed c; isMoving := isMoving c;
       clickTarget := clickTarget c; connectionStatus := connectionStatus c;
       lastFrameTime := lastFrameTime c; targetFPS := targetFPS c |}.

Definition set_worldImage (v : option Img) : GameClient :=
    {| width := width c; height := height c; ctx := ctx c; worldImage := v;
       worldWidth := worldWidth c; worldHeight := worldHeight c;
       myPlayerId := myPlayerId c; players := players c;
       avatars := avatars c; websocket := websocket c; cameraX := cameraX c;
       cameraY := cameraY c; keysPressed := keysPressed c;
       isMoving := isMoving c; clickTarget := clickTarget c;
       connectionStatus := connectionStatus c;
       lastFrameTime := lastFrameTime c; targetFPS := targetFPS c |}.

Definition set_myPlayerId (v : option string) : GameClient :=
    {| width := width c; height := height c; ctx := ctx c;
       worldImage := worldImage c; worldWidth := worldWidth c;
       worldHeight := worldHeight c; myPlayerId := v; players := players c;
       avatars := avatars c; websocket := websocket c; cameraX := cameraX c;
       cameraY := cameraY c; keysPressed := keysPressed c;
       isMoving := isMoving c; clickTarget := clickTarget c;
       connectionStatus := connectionStatus c;
       lastFrameTime := lastFrameTime c; targetFPS := targetFPS c |}.

Definition set_players (v : gmap string Player) : GameClient :=
    {| width := width c; height := height c; ctx := ctx c;
       worldImage := worldImage c; worldWidth := worldWidth c;
       worldHeight := worldHeight c; myPlayerId := myPlayerId c;
       players := v; avatars := avatars c; websocket := websocket c;
       cameraX := cameraX c; cameraY := cameraY c;
       keysPressed := keysPressed c; isMoving := isMoving c;
       clickTarget := clickTarget c; connectionStatus := connectionStatus c;
       lastFrameTime := lastFrameTime c; targetFPS := targetFPS c |}.

Definition set_avatars (v : gmap string Avatar) : GameClient :=
    {| width := width c; height := height c; ctx := ctx c;
       worldImage := worldImage c; worldWidth := worldWidth c;
       worldHeight := worldHeight c; myPlayerId := myPlayerId c;
       players := players c; avatars := v; websocket := websocket c;
       cameraX := cameraX c; cameraY := cameraY c;
       keysPressed := keysPressed c; isMoving := isMoving c;
       clickTarget := clickTarget c; connectionStatus := connectionStatus c;
       lastFrameTime := lastFrameTime c; targetFPS := targetFPS c |}.

Definition set_websocket (v : option ReadyState) : GameClient :=
    {| width := width c; height := height c; ctx := ctx c;
       worldImage := worldImage c; worldWidth := worldWidth c;
       worldHeight := worldHeight c; myPlayerId := myPlayerId c;
       players := players c; avatars := avatars c; websocket := v;
       cameraX := cameraX c; cameraY := cameraY c;
       keysPressed := keysPressed c; isMoving := isMoving c;
       clickTarget := clickTarget c; connectionStatus := connectionStatus c;
       lastFrameTime := lastFrameTime c; targetFPS := targetFPS c |}.

Definition set_cameraX (v : Q) : GameClient :=
    {| width := width c; height := height c; ctx := ctx c;
       worldImage := worldImage c; worldWidth := worldWidth c;
       worldHeight := worldHeight c; myPlayerId := myPlayerId c;
       players := players c; avatars := avatars c; websocket := websocket c;
       cameraX := v; cameraY := cameraY c; keysPressed := keysPressed c;
       isMoving := isMoving c; clickTarget := clickTarget c;
       connectionStatus := connectionStatus c;
       lastFrameTime := lastFrameTime c; targetFPS := targetFPS c |}.

Definition set_cameraY (v : Q) : GameClient :=
    {| width := width c; height := height c; ctx := ctx c;
       worldImage := worldImage c; worldWidth := worldWidth c;
       worldHeight := worldHeight c; myPlayerId := myPlayerId c;
       players := players c; avatars := avatars c; websocket := websocket c;
       cameraX := cameraX c; cameraY := v; keysPressed := keysPressed c;
       isMoving := isMoving c; clickTarget := clickTarget c;
       connectionStatus := connectionStatus c;
       lastFrameTime := lastFrameTime c; targetFPS := targetFPS c |}.

Definition set_keysPressed (v : gset string) : GameClient :=
    {| width := width c; height := height c; ctx := ctx c;
       worldImage := worldImage c; worldWidth := worldWidth c;
       worldHeight := worldHeight c; myPlayerId := myPlayerId c;
       players := players c; avatars := avatars c; websocket := websocket c;
       cameraX := cameraX c; cameraY := cameraY c; keysPressed := v;
       isMoving := isMoving c; clickTarget := clickTarget c;
       connectionStatus := connectionStatus c;
       lastFrameTime := lastFrameTime c; targetFPS := targetFPS c |}.

Definition set_isMoving (v : bool) : GameClient :=
    {| width := width c; height := height c; ctx := ctx c;
       worldImage := worldImage c; worldWidth := worldWidth c;
       worldHeight := worldHeight c; myPlayerId := myPlayerId c;
       players := players c; avatars := avatars c; websocket := websocket c;
       cameraX := cameraX c; cameraY := cameraY c;
       keysPressed := keysPressed c; isMoving := v;
       clickTarget := clickTarget c; connectionStatus := connectionStatus c;
       lastFrameTime := lastFrameTime c; targetFPS := targetFPS c |}.

Definition set_clickTarget (v : option Point) : GameClient :=
    {| width := width c; height := height c; ctx := ctx c;
       worldImage := worldImage c; worldWidth := worldWidth c;
       worldHeight := worldHeight c; myPlayerId := myPlayerId c;
       players := players c; avatars := avatars c; websocket := websocket c;
       cameraX := cameraX c; cameraY := cameraY c;
       keysPressed := keysPressed c; isMoving := isMoving c;
       clickTarget := v; connectionStatus := connectionStatus c;
       lastFrameTime := lastFrameTime c; targetFPS := targetFPS c |}.

Definition set_connectionStatus (v : ConnectionStatus) : GameClient :=
    {| width := width c; height := height c; ctx := ctx c;
       worldImage := worldImage c; worldWidth := worldWidth c;
       worldHeight := worldHeight c; myPlayerId := myPlayerId c;
       players := players c; avatars := avatars c; websocket := websocket c;
       cameraX := cameraX c; cameraY := cameraY c;
       keysPressed := keysPressed c; isMoving := isMoving c;
       clickTarget := clickTarget c; connectionStatus := v;
       lastFrameTime := lastFrameTime c; targetFPS := targetFPS c |}.

Definition set_lastFrameTime (v : Q) : GameClient :=
    {| width := width c; height := height c; ctx := ctx c;
       worldImage := worldImage c; worldWidth := worldWidth c;
       worldHeight := worldHeight c; myPlayerId := myPlayerId c;
       players := players c; avatars := avatars c; websocket := websocket c;
       cameraX := cameraX c; cameraY := cameraY c;
       keysPressed := keysPressed c; isMoving := isMoving c;
       clickTarget := clickTarget c; connectionStatus := connectionStatus c;
       lastFrameTime := v; targetFPS := targetFPS c |}.

End Assign.

(** ** Methods as state transformers with a trace *)

Inductive Exn := TypeError | InvalidStateError.

Inductive Completion (A : Type) :=
  | Normal (a : A)
  | Thrown (e : Exn).
Arguments Normal {A} a.
Arguments Thrown {A} e.

(** A method body: from the object before the call to how the call
    completed, the object after it and the calls made on the way. *)
Definition M (A : Type) : Type :=
  GameClient → Completion A * GameClient * list Effect.

#[global] Instance M_ret : MRet M := λ A a c, (Normal a, c, []).

#[global] Instance M_bind : MBind M := λ A B k m c,
  match m c with
  | (Normal a, c1, t1) =>
      match k a c1 with (r, c2, t2) => (r, c2, t1 ++ t2) end
  | (Thrown e, c1, t1) => (Thrown e, c1, t1)
  end.

Definition get : M GameClient := λ c, (Normal c, c, []).
Definition assign (f : GameClient → GameClient) : M unit := λ c, (Normal (), f c, []).
Definition emit (e : Effect) : M unit := λ c, (Normal (), c, [e]).
Definition throw {A} (e : Exn) : M A := λ c, (Thrown e, c, []).
Definition skip : M unit := mret ().

(** The projections of a run. *)
Definition completion {A} (r : Completion A * GameClient * list Effect) := r.1.1.
Definition after {A} (r : Completion A * GameClient * list Effect) := r.1.2.
Definition trace {A} (r : Completion A * GameClient * list Effect) := r.2.

(** [for (const k in obj) body(k, obj[k])], the entries taken in the order
    of [map_to_list]. *)
Definition for_in {V} (obj : gmap string V) (body : string → V → M unit) : M unit :=
  foldr (λ kv rest, body kv.1 kv.2 ;; rest) skip (map_to_list obj).

(** [list.forEach(body)]. *)
Definition forEach {V} (l : list V) (body : V → M unit) : M unit :=
  foldr (λ v rest, body v ;; rest) skip l.

(** *** The WebSocket *)

(** [this.websocket.send(JSON.stringify(m))].  Reading [send] off [null] is a
    TypeError; the platform's [send] throws on a connecting socket, transmits
    on an open one and drops the data on a closing or closed one. *)
Definition websocket_send (m : OutMsg) : M unit :=
  c ← get;
  match websocket c with
  | None => throw TypeError
  | Some CONNECTING => throw InvalidStateError
  | Some OPEN => emit (WsSend m)
  | Some _ => emit (WsDiscard m)
  end.

(** [!this.websocket || this.websocket.readyState !== WebSocket.OPEN]. *)
Definition notOpen (c : GameClient) : bool :=
  match websocket c with
  | Some OPEN => false
  | _ => true
  end.

(** *** The 2D context *)

Definition set_cur (f : DrawState → DrawState) : M unit :=
  assign (λ c, set_ctx c {| cur := f (cur (ctx c)); saved := saved (ctx c) |}).

Definition ctx_save : M unit :=
  assign (λ c, set_ctx c {| cur := cur (ctx c); saved := cur (ctx c) :: saved (ctx c) |}).

(** [restore] on an empty stack does nothing. *)
Definition ctx_restore : M unit :=
  assign (λ c, match saved (ctx c) with
               | [] => c
               | st :: rest => set_ctx c {| cur := st; saved := rest |}
               end).

Definition with_transform (T : Matrix) (st : DrawState) : DrawState :=
  {| transform := T; fillStyle := fillStyle st; strokeStyle := strokeStyle st;
     lineWidth := lineWidth st; font := font st; textAlign := textAlign st;
     lineDash := lineDash st |}.
Definition with_fillStyle (v : string) (st : DrawState) : DrawState :=
  {| transform := transform st; fillStyle := v; strokeStyle := strokeStyle st;
     lineWidth := lineWidth st; font := font st; textAlign := textAlign st;
     lineDash := lineDash st |}.
Definition with_strokeStyle (v : string) (st : DrawState) : DrawState :=
  {| transform := transform st; fillStyle := fillStyle st; strokeStyle := v;
     lineWidth := lineWidth st; font := font st; textAlign := textAlign st;
     lineDash := lineDash st |}.
Definition with_lineWidth (v : Q) (st : DrawState) : DrawState :=
  {| transform := transform st; fillStyle := fillStyle st;
     strokeStyle := strokeStyle st; lineWidth := v; font := font st;
     textAlign := textAlign st; lineDash := lineDash st |}.
Definition with_font (v : string) (st : DrawState) : DrawState :=
  {| transform := transform st; fillStyle := fillStyle st;
     strokeStyle := strokeStyle st; lineWidth := lineWidth st; font := v;
     textAlign := textAlign st; lineDash := lineDash st |}.
Definition with_textAlign (v : string) (st : DrawState) : DrawState :=
  {| transform := transform st; fillStyle := fillStyle st;
     strokeStyle := strokeStyle st; lineWidth := lineWidth st; font := font st;
     textAlign := v; lineDash := lineDash st |}.
Definition with_lineDash (v : list Q) (st : DrawState) : DrawState :=
  {| transform := transform st; fillStyle := fillStyle st;
     strokeStyle := strokeStyle st; lineWidth := lineWidth st; font := font st;
     textAlign := textAlign st; lineDash := v |}.

(** [setTransform(a, b, c, d, e, f)] replaces the current transform. *)
Definition ctx_setTransform (a b c' d e f : Q) : M unit :=
  set_cur (with_transform {| ma := a; mb := b; mc := c'; md := d; me := e; mf := f |}).

(** [scale(sx, sy)] multiplies the current transform by a scaling. *)
Definition ctx_scale (kx ky : Q) : M unit :=
  set_cur (λ st, with_transform
    {| ma := ma (transform st) * kx; mb := mb (transform st) * kx;
       mc := mc (transform st) * ky; md := md (transform st) * ky;
       me := me (transform st); mf := mf (transform st) |} st).

Definition canvas (op : DrawState → CanvasOp) : M unit :=
  c ← get; emit (Canvas (op (cur (ctx c)))).

(** The platform's [drawImage]: a NaN argument makes it return at once (a
    number that may be NaN is an [option Q] here); then an image whose
    decoding failed makes it throw InvalidStateError; an image that is not
    decoded yet, or has a zero dimension, or a zero source extent, makes it
    return without painting. *)
Definition usable (img : Img) (paint : M unit) : M unit :=
  match status img with
  | Broken => throw InvalidStateError
  | Pending => skip
  | Complete w h => if ((w =? 0) || (h =? 0))%N then skip else paint
  end.

Definition ctx_drawImage5 (img : Img) (dx : option Q) (dy : Q) (dw : option Q) (dh : Q)
  : M unit :=
  match dx, dw with
  | Some dx, Some dw =>
      usable img (canvas (λ st,
        Blit img (transform st) 0 0 (img_width img) (img_height img) dx dy dw dh))
  | _, _ => skip
  end.

Definition ctx_drawImage9 (img : Img) (sx sy sw sh dx dy dw dh : Q) : M unit :=
  usable img
    (if Qeq_bool sw 0 || Qeq_bool sh 0 then skip
     else canvas (λ st, Blit img (transform st) sx sy sw sh dx dy dw dh)).

(** ** The methods of [GameClient] *)

(** JavaScript's truthiness of a string: only the empty string is falsy. *)
Definition truthy (s : string) : bool := negb (String.eqb s "").

(** The player that the guard
    [!this.myPlayerId || !this.players[this.myPlayerId]] lets through, for a
    roster looked up by its own properties. *)
Definition localPlayer (c : GameClient) : option Player :=
  match myPlayerId c with
  | None => None
  | Some i => if truthy i then players c !! i else None
  end.

Definition when (b : bool) (body : M unit) : M unit := if b then body else skip.

Definition updateCamera : M unit :=
  c ← get;
  match localPlayer c with
  | None => skip
  | Some myPlayer =>
      (* Always center camera on my player *)
      assign (λ c, set_cameraX c (x myPlayer - width c / 2));;
      assign (λ c, set_cameraY c (y myPlayer - height c / 2));;
      (* Only clamp if the world is larger than the screen *)
      c ← get;
      when (Qgtb (worldWidth c) (width c))
        (assign (λ c, set_cameraX c
           (Qmax 0 (Qmin (cameraX c) (worldWidth c - width c)))));;
      c ← get;
      when (Qgtb (worldHeight c) (height c))
        (assign (λ c, set_cameraY c
           (Qmax 0 (Qmin (cameraY c) (worldHeight c - height c)))))
  end.

Definition worldToScreen (c : GameClient) (worldX worldY : Q) : Point :=
  {| px := worldX - cameraX c; py := worldY - cameraY c |}.

(** The [resize] listener installed by [setupCanvas].  Assigning the size of
    a canvas resets its context. *)
Definition onResize (innerWidth innerHeight : Q) : M unit :=
  assign (λ c, set_width c innerWidth);;
  assign (λ c, set_height c innerHeight);;
  assign (λ c, set_ctx c initialCtx);;
  updateCamera.

Definition newImage (data : string) : Img := {| src := data; status := Pending |}.

Definition loadWorldMap : M unit :=
  assign (λ c, set_worldImage c (Some (newImage "world.jpg"))).

(** [connectToServer]; [constructed] tells whether [new WebSocket] returned
    or threw into the [catch]. *)
Definition connectToServer (constructed : bool) : M unit :=
  if constructed then assign (λ c, set_websocket c (Some CONNECTING))
  else emit (ConsoleError "Failed to connect to server:").

Definition joinGame : M unit := websocket_send (MsgJoinGame "Biraj").

(** *** Outbound commands *)

Definition sendStopCommand : M unit :=
  c ← get;
  if notOpen c then skip
  else
    websocket_send MsgStop;;
    assign (λ c, set_isMoving c false).

Definition has (s : gset string) (k : string) : bool := bool_decide (k ∈ s).

Definition sendMoveCommand : M unit :=
  c ← get;
  if notOpen c then skip
  else
    (* Send all pressed directions for proper diagonal movement *)
    let directions :=
      (if has (keysPressed c) "ArrowUp" then [DirUp] else []) ++
      (if has (keysPressed c) "ArrowDown" then [DirDown] else []) ++
      (if has (keysPressed c) "ArrowLeft" then [DirLeft] else []) ++
      (if has (keysPressed c) "ArrowRight" then [DirRight] else []) in
    forEach directions (λ direction, websocket_send (MsgMove direction));;
    when (0 <? length directions)%nat (assign (λ c, set_isMoving c true)).

(** *** Click-to-move *)

(** The homing step.  Its arithmetic is that of the source, operation by
    operation, on doubles: [>] is [<] with the operands exchanged, and like
    it false when an operand is NaN. *)
Definition startMovingToTarget : M unit :=
  c ← get;
  match clickTarget c, localPlayer c with
  | Some target, Some myPlayer =>
      let deltaX := (toDouble (px target) - toDouble (x myPlayer))%float in
      let deltaY := (toDouble (py target) - toDouble (y myPlayer))%float in
      let distance := PrimFloat.sqrt (deltaX * deltaX + deltaY * deltaY) in
      (* If we're close enough, stop moving *)
      if (distance <? 20)%float then
        assign (λ c, set_clickTarget c None);;
        sendStopCommand
      else
        (* Determine which direction to move *)
        let direction :=
          if (PrimFloat.abs deltaY <? PrimFloat.abs deltaX)%float
          then (if (0 <? deltaX)%float then DirRight else DirLeft)
          else (if (0 <? deltaY)%float then DirDown else DirUp) in
        websocket_send (MsgMove direction);;
        assign (λ c, set_isMoving c true);;
        (* Continue moving after a short delay *)
        emit (SetTimeout CbStartMovingToTarget 200)
  | _, _ => skip
  end.

Definition sendClickMoveCommand (tx ty : Q) : M unit :=
  c ← get;
  if notOpen c then skip
  else
    (* Store the target and start moving towards it *)
    assign (λ c, set_clickTarget c (Some {| px := tx; py := ty |}));;
    startMovingToTarget.

(** [handleCanvasClick(event)] with [rect] the canvas's bounding rectangle. *)
Definition handleCanvasClick (clientX clientY rectLeft rectTop : Q) : M unit :=
  c ← get;
  let clickX := clientX - rectLeft in
  let clickY := clientY - rectTop in
  (* Convert screen coordinates to world coordinates *)
  let worldX := clickX + cameraX c in
  let worldY := clickY + cameraY c in
  (* Clamp to world boundaries *)
  let clampedX := Qmax 0 (Qmin worldX (worldWidth c)) in
  let clampedY := Qmax 0 (Qmin worldY (worldHeight c)) in
  assign (λ c, set_clickTarget c (Some {| px := clampedX; py := clampedY |}));;
  sendClickMoveCommand clampedX clampedY.

(** *** Keyboard *)

Definition arrowKeys : list string :=
  ["ArrowUp"; "ArrowDown"; "ArrowLeft"; "ArrowRight"].

Definition includes (l : list string) (k : string) : bool := bool_decide (k ∈ l).

Definition handleKeyDown (code : string) : M unit :=
  if negb (includes arrowKeys code) then skip
  else
    emit PreventDefault;;
    assign (λ c, set_keysPressed c ({[code]} ∪ keysPressed c));;
    sendMoveCommand.

Definition handleKeyUp (code : string) : M unit :=
  if negb (includes arrowKeys code) then skip
  else
    assign (λ c, set_keysPressed c (keysPressed c ∖ {[code]}));;
    c ← get;
    when (bool_decide (size (keysPressed c) = 0%nat)) sendStopCommand.

(** *** The sprite cache *)

(** The frames of one direction: every entry gets a new [Image] whose source
    is set, which starts its decoding. *)
Definition decodeAll (avatarName : string) (dir : Facing) (l : list string) : M unit :=
  forEach (imap (λ index base64Data, (index, base64Data)) l)
    (λ f, emit (DecodeFrame avatarName dir f.1 f.2)).

Definition with_parsedFrames (a : Avatar) (v : Frames Img) : Avatar :=
  {| name := name a; frames := frames a; parsedFrames := Some v |}.

(** The body of the loop of [parseAvatarImages]. *)
Definition parseAvatar (avatarName : string) (avatar : Avatar) : M unit :=
  (* Initialize frames if not already done *)
  match parsedFrames avatar with
  | Some _ => skip
  | None =>
      assign (λ c, set_avatars c
        (<[avatarName := with_parsedFrames avatar
             {| f_north := newImage <$> f_north (frames avatar);
                f_south := newImage <$> f_south (frames avatar);
                f_east := newImage <$> f_east (frames avatar) |}]> (avatars c)));;
      (* Parse each direction's frames *)
      decodeAll avatarName north (f_north (frames avatar));;
      decodeAll avatarName south (f_south (frames avatar));;
      decodeAll avatarName east (f_east (frames avatar))
  end.

Definition parseAvatarImages : M unit :=
  c ← get;
  for_in (avatars c) parseAvatar.

(** *** Inbound messages *)

Definition handleServerMessage (message : InMsg) : M unit :=
  match message with
  | JoinGameOk playerId ps avs =>
      assign (λ c, set_myPlayerId c (Some playerId));;
      assign (λ c, set_players c ps);;
      assign (λ c, set_avatars c avs);;
      parseAvatarImages;;
      updateCamera
  | JoinGameFail error =>
      emit (ConsoleError ("Join game failed: " +:+ error))
  | PlayerJoined p a =>
      assign (λ c, set_players c (<[id p := p]> (players c)));;
      assign (λ c, set_avatars c (<[name a := a]> (avatars c)));;
      parseAvatarImages
  | PlayersMoved ps =>
      (* Object.assign(this.players, message.players) *)
      assign (λ c, set_players c (ps ∪ players c));;
      updateCamera
  | PlayerLeft playerId =>
      assign (λ c, set_players c (delete playerId (players c)))
  | UnknownAction action =>
      emit (ConsoleLog ("Unknown message type: " +:+ action))
  end.

(** *** Drawing *)

(** [avatar.parsedFrames[direction]]: there is no west property. *)
Definition frameSet (pf : Frames Img) (direction : Facing) : option (list Img) :=
  match direction with
  | north => Some (f_north pf)
  | south => Some (f_south pf)
  | east => Some (f_east pf)
  | west => None
  end.

(** The size the sprite is drawn at: [(avatarWidth, avatarHeight)] for
    [maxSize = 32].  Over a height of 0 the ratio is NaN (width 0, then
    [avatarWidth] is NaN, written [None]) or infinite (then [avatarHeight]
    is 32 / Infinity = 0). *)
Definition avatarSize (avatarImg : Img) : option Q * Q :=
  let maxSize := 32 in
  if Qeq_bool (img_height avatarImg) 0 then
    if Qeq_bool (img_width avatarImg) 0 then (None, maxSize)
    else (Some maxSize, 0)
  else
    let aspectRatio := img_width avatarImg / img_height avatarImg in
    if Qgtb aspectRatio 1 then (Some maxSize, maxSize / aspectRatio)
    else (Some (maxSize * aspectRatio), maxSize).

Definition offScreen (c : GameClient) (screenPos : Point) : bool :=
  Qltb (px screenPos) (-50) || Qgtb (px screenPos) (width c + 50) ||
  Qltb (py screenPos) (-50) || Qgtb (py screenPos) (height c + 50).

Definition drawLabel (player : Player) (screenPos : Point) (avatarHeight : Q) : M unit :=
  ctx_save;;
  set_cur (with_fillStyle "white");;
  set_cur (with_strokeStyle "black");;
  set_cur (with_lineWidth 2);;
  set_cur (with_font "12px Arial");;
  set_cur (with_textAlign "center");;
  let textY := py screenPos - avatarHeight / 2 - 5 in
  (* Draw text outline *)
  canvas (λ st, StrokeText st (username player) (px screenPos) textY);;
  (* Draw text fill *)
  canvas (λ st, FillText st (username player) (px screenPos) textY);;
  ctx_restore.

Definition drawAvatar (player : Player) : M unit :=
  c ← get;
  match avatars c !! avatar player ≫= parsedFrames with
  | None => skip
  | Some pf =>
      let screenPos := worldToScreen c (x player) (y player) in
      (* Check if avatar is visible on screen *)
      if offScreen c screenPos then skip
      else
        (* For west direction, use east frames and flip them *)
        let direction :=
          match facing player with west => east | d => d end in
        match frameSet pf direction ≫= (λ fs, fs !! animationFrame player) with
        | None => skip
        | Some avatarImg =>
            let '(avatarWidth, avatarHeight) := avatarSize avatarImg in
            ctx_save;;
            (* Handle west direction by flipping horizontally *)
            match facing player with
            | west =>
                ctx_save;;
                ctx_setTransform (-1) 0 0 1 (px screenPos) 0;;
                ctx_drawImage5 avatarImg
                  ((λ w, - w / 2) <$> avatarWidth)
                  (py screenPos - avatarHeight / 2)
                  avatarWidth avatarHeight;;
                ctx_restore
            | _ =>
                ctx_drawImage5 avatarImg
                  ((λ w, px screenPos - w / 2) <$> avatarWidth)
                  (py screenPos - avatarHeight / 2)
                  avatarWidth avatarHeight
            end;;
            ctx_restore;;
            drawLabel player screenPos avatarHeight
        end
  end.

(** [drawAvatar] of the earliest revision: the frames are looked up under
    the facing itself, and the west branch mirrors with [scale(-1, 1)]. *)
Definition drawAvatar_rev0 (player : Player) : M unit :=
  c ← get;
  match avatars c !! avatar player ≫= parsedFrames with
  | None => skip
  | Some pf =>
      let screenPos := worldToScreen c (x player) (y player) in
      if offScreen c screenPos then skip
      else
        match frameSet pf (facing player) ≫= (λ fs, fs !! animationFrame player) with
        | None => skip
        | Some avatarImg =>
            let '(avatarWidth, avatarHeight) := avatarSize avatarImg in
            ctx_save;;
            match facing player with
            | west =>
                ctx_scale (-1) 1;;
                ctx_drawImage5 avatarImg
                  ((λ w, - px screenPos - w / 2) <$> avatarWidth)
                  (py screenPos - avatarHeight / 2)
                  avatarWidth avatarHeight
            | _ =>
                ctx_drawImage5 avatarImg
                  ((λ w, px screenPos - w / 2) <$> avatarWidth)
                  (py screenPos - avatarHeight / 2)
                  avatarWidth avatarHeight
            end;;
            ctx_restore;;
            drawLabel player screenPos avatarHeight
        end
  end.

Definition drawClickTarget (target : Point) : M unit :=
  c ← get;
  let screenPos := worldToScreen c (px target) (py target) in
  ctx_save;;
  set_cur (with_strokeStyle "#00ff00");;
  set_cur (with_lineWidth 3);;
  set_cur (with_lineDash [5; 5]);;
  (* Draw circle around target *)
  canvas (λ _, BeginPath);;
  canvas (λ _, ArcFull (px screenPos) (py screenPos) 15);;
  canvas Stroke;;
  (* Draw crosshair *)
  set_cur (with_lineDash []);;
  canvas (λ _, BeginPath);;
  canvas (λ _, MoveTo (px screenPos - 10) (py screenPos));;
  canvas (λ _, LineTo (px screenPos + 10) (py screenPos));;
  canvas (λ _, MoveTo (px screenPos) (py screenPos - 10));;
  canvas (λ _, LineTo (px screenPos) (py screenPos + 10));;
  canvas Stroke;;
  ctx_restore.

Definition getConnectionStatusColor (c : GameClient) : string :=
  match connectionStatus c with
  | StConnected => "#00ff00"
  | StConnecting => "#ffff00"
  | StDisconnected => "#ff0000"
  | StError => "#ff0000"
  end.

(** [this.connectionStatus.toUpperCase()]. *)
Definition statusUpper (s : ConnectionStatus) : string :=
  match s with
  | StConnecting => "CONNECTING"
  | StConnected => "CONNECTED"
  | StDisconnected => "DISCONNECTED"
  | StError => "ERROR"
  end.

Definition drawUI : M unit :=
  c ← get;
  ctx_save;;
  set_cur (with_fillStyle (getConnectionStatusColor c));;
  set_cur (with_font "14px Arial");;
  canvas (λ st, FillText st ("Connection: " +:+ statusUpper (connectionStatus c)) 10 25);;
  when (isMoving c)
    (set_cur (with_fillStyle "#ffff00");;
     canvas (λ st, FillText st "Moving..." 10 45));;
  ctx_restore.

Definition draw : M unit :=
  emit (Enter MDraw);;
  c ← get;
  match worldImage c with
  | None => skip
  | Some img =>
      canvas (λ _, ClearRect 0 0 (width c) (height c));;
      ctx_drawImage9 img
        (cameraX c) (cameraY c) (width c) (height c)
        0 0 (width c) (height c);;
      match clickTarget c with
      | Some target => drawClickTarget target
      | None => skip
      end;;
      for_in (players c) (λ _ player, drawAvatar player);;
      drawUI
  end.

(** *** The render loop *)

Definition update (deltaTime : Q) : M unit :=
  emit (Enter MUpdate);;
  updateCamera.

(** The callback handed to [requestAnimationFrame]. *)
Definition gameLoop (currentTime : Q) : M unit :=
  c ← get;
  let deltaTime := currentTime - lastFrameTime c in
  let targetFrameTime := 1000 / targetFPS c in
  when (Qgeb deltaTime targetFrameTime)
    (update deltaTime;;
     draw;;
     assign (λ c, set_lastFrameTime c currentTime));;
  emit (RequestAnimationFrame CbGameLoop).

(** *** Construction and the event loop *)

(** [new GameClient()] in a window of the given inner size: the field
    initialisers, [init()] and [startGameLoop()]. *)
Definition constructor (innerWidth innerHeight : Q) (constructed : bool)
  : Completion unit * GameClient * list Effect :=
  (assign (λ c, set_width c innerWidth);;
   assign (λ c, set_height c innerHeight);;
   loadWorldMap;;
   connectToServer constructed;;
   emit (RequestAnimationFrame CbGameLoop))
  {| width := 300; height := 150; ctx := initialCtx; worldImage := None;
     worldWidth := 2048; worldHeight := 2048;
     myPlayerId := None; players := ∅; avatars := ∅; websocket := None;
     cameraX := 0; cameraY := 0;
     keysPressed := ∅; isMoving := false; clickTarget := None;
     connectionStatus := StConnecting; lastFrameTime := 0; targetFPS := 60 |}.

(** Completion of an image's decoding. *)
Definition settle (st : ImgStatus) (i : Img) : Img :=
  match status i with
  | Pending => {| src := src i; status := st |}
  | _ => i
  end.

Definition settleFrame (dir : Facing) (index : nat) (st : ImgStatus) (a : Avatar) : Avatar :=
  match parsedFrames a with
  | None => a
  | Some pf =>
      with_parsedFrames a
        match dir with
        | north => {| f_north := alter (settle st) index (f_north pf);
                      f_south := f_south pf; f_east := f_east pf |}
        | south => {| f_north := f_north pf;
                      f_south := alter (settle st) index (f_south pf);
                      f_east := f_east pf |}
        | east => {| f_north := f_north pf; f_south := f_south pf;
                     f_east := alter (settle st) index (f_east pf) |}
        | west => pf
        end
  end.

(** What the platform delivers to the client's listeners. *)
Inductive Event :=
  | Resize (innerWidth innerHeight : Q)
  | WsOpen
  | WsMessage (message : InMsg)
  | WsClosing
  | WsClose
  | WsError
  | KeyDown (code : string)
  | KeyUp (code : string)
  | Click (clientX clientY rectLeft rectTop : Q)
  | Timer
  | AnimationFrame (currentTime : Q)
  | WorldImageSettled (st : ImgStatus)
  | FrameSettled (avatarName : string) (dir : Facing) (index : nat) (st : ImgStatus).

(** The listener run for an event, after the platform's own change of the
    object the event is about.  A connection that fails is closed first:
    the socket is CLOSED when its [error] event is delivered, and its
    [close] event follows. *)
Definition dispatch (e : Event) : M unit :=
  match e with
  | Resize w h => onResize w h
  | WsOpen =>
      assign (λ c, set_websocket c (Some OPEN));;
      assign (λ c, set_connectionStatus c StConnected);;
      joinGame
  | WsMessage message => handleServerMessage message
  | WsClosing => assign (λ c, set_websocket c (Some CLOSING))
  | WsClose =>
      assign (λ c, set_websocket c (Some CLOSED));;
      assign (λ c, set_connectionStatus c StDisconnected)
  | WsError =>
      assign (λ c, set_websocket c (Some CLOSED));;
      assign (λ c, set_connectionStatus c StError)
  | KeyDown code => handleKeyDown code
  | KeyUp code => handleKeyUp code
  | Click clientX clientY rectLeft rectTop =>
      handleCanvasClick clientX clientY rectLeft rectTop
  | Timer => startMovingToTarget
  | AnimationFrame currentTime => gameLoop currentTime
  | WorldImageSettled st =>
      assign (λ c, set_worldImage c (settle st <$> worldImage c));;
      when (match st with Broken => true | _ => false end)
        (emit (ConsoleError "Failed to load world map image"))
  | FrameSettled avatarName dir index st =>
      assign (λ c, set_avatars c (alter (settleFrame dir index st) avatarName (avatars c)))
  end.

(** The socket events the platform can deliver in a given state. *)
Definition enabled (c : GameClient) (e : Event) : Prop :=
  match e with
  | WsOpen => websocket c = Some CONNECTING
  | WsMessage _ => websocket c = Some OPEN ∨ websocket c = Some CLOSING
  | WsClosing => websocket c = Some OPEN
  | WsClose => is_Some (websocket c)
  | WsError => is_Some (websocket c) ∧ websocket c ≠ Some CLOSED
  | _ => True
  end.

(** The states the client can be in: after construction, and after any
    listener has run, whether it returned or threw. *)
Inductive reachable : GameClient → Prop :=
  | reachable_new w h constructed :
      reachable (after (constructor w h constructed))
  | reachable_step c e :
      reachable c → enabled c e → reachable (after (dispatch e c)).


(** ** Vocabulary of the statements *)

(** The offset [updateCamera] computes on one axis. *)
Definition cameraAxis (pos viewport world : Q) : Q :=
  if Qgtb world viewport
  then Qmax 0 (Qmin (pos - viewport / 2) (world - viewport))
  else pos - viewport / 2.

(** A method keeps a relation between the object before and after the
    call, however the call completes. *)
Definition preserves {A} (R : relation GameClient) (m : M A) : Prop :=
  ∀ c, R c (after (m c)).

(** A method returns, and everything it calls satisfies [E]. *)
Definition returning {A} (E : Effect → Prop) (m : M A) : Prop :=
  ∀ c, (∃ a, completion (m c) = Normal a) ∧ Forall E (trace (m c)).



Definition is_canvas (e : Effect) : Prop :=
  match e with Canvas _ => True | _ => False end.

(** The images painted in a trace. *)
Fixpoint blits (t : list Effect) : list CanvasOp :=
  match t with
  | [] => []
  | Canvas (Blit img T sx sy sw sh dx dy dw dh) :: t =>
      Blit img T sx sy sw sh dx dy dw dh :: blits t
  | _ :: t => blits t
  end.

(** The horizontal extent, on the drawing surface, of a painted image: the
    least and greatest abscissa of the four corners of its destination
    rectangle under the transform in force. *)
Definition xExtent (op : CanvasOp) : option (Q * Q) :=
  match op with
  | Blit _ T _ _ _ _ dx dy dw dh =>
      let x00 := device_x T dx dy in
      let x10 := device_x T (dx + dw) dy in
      let x01 := device_x T dx (dy + dh) in
      let x11 := device_x T (dx + dw) (dy + dh) in
      Some (Qmin (Qmin x00 x10) (Qmin x01 x11), Qmax (Qmax x00 x10) (Qmax x01 x11))
  | _ => None
  end.

(** The world dimensions stay, and the click target stays or is cleared. *)
Definition targetKeptOrCleared : relation GameClient := λ c c',
  worldWidth c' = worldWidth c ∧ worldHeight c' = worldHeight c ∧
  (clickTarget c' = clickTarget c ∨ clickTarget c' = None).

(** What one decode pass does to one catalogue entry. *)
Definition decoded (a : Avatar) : Avatar :=
  match parsedFrames a with
  | Some _ => a
  | None =>
      with_parsedFrames a
        {| f_north := newImage <$> f_north (frames a);
           f_south := newImage <$> f_south (frames a);
           f_east := newImage <$> f_east (frames a) |}
  end.

(** The decodings a trace starts under one avatar name, in order. *)
Fixpoint decodingsOf (avatarName : string) (t : list Effect) : list Effect :=
  match t with
  | [] => []
  | DecodeFrame n dir index data :: t =>
      if String.eqb n avatarName
      then DecodeFrame n dir index data :: decodingsOf avatarName t
      else decodingsOf avatarName t
  | _ :: t => decodingsOf avatarName t
  end.

(** A call that starts a decoding. *)
Definition is_decoding (e : Effect) : Prop :=
  match e with DecodeFrame _ _ _ _ => True | _ => False end.

(** A message is handed to the network. *)
Definition transmits (e : Effect) : Prop :=
  match e with WsSend _ => True | _ => False end.

Definition blitImage (op : CanvasOp) : option Img :=
  match op with
  | Blit img _ _ _ _ _ _ _ _ _ => Some img
  | _ => None
  end.

(** The decodings one pass starts for one catalogue entry. *)
Definition decodeEvents (kv : string * Avatar) : list Effect :=
  match parsedFrames kv.2 with
  | Some _ => []
  | None =>
      imap (DecodeFrame kv.1 north) (f_north (frames kv.2)) ++
      imap (DecodeFrame kv.1 south) (f_south (frames kv.2)) ++
      imap (DecodeFrame kv.1 east) (f_east (frames kv.2))
  end.

(** What one iteration of the decode pass does to the catalogue. *)
Definition decodeEntry (avs : gmap string Avatar) (kv : string * Avatar)
  : gmap string Avatar :=
  match parsedFrames kv.2 with
  | Some _ => avs
  | None => <[kv.1 := decoded kv.2]> avs
  end.

(** Every event of a sequence can be delivered when its turn comes. *)
Fixpoint deliverable (c : GameClient) (es : list Event) : Prop :=
  match es with
  | [] => True
  | e :: es => enabled c e ∧ deliverable (after (dispatch e c)) es
  end.

(** [avatar.frames[direction]]. *)
Definition sourceFrames (fs : Frames string) (direction : Facing) : list string :=
  match direction with
  | north => f_north fs
  | south => f_south fs
  | east => f_east fs
  | west => []
  end.

(** *** Vocabulary of the further properties *)

(** A method leaves a component of the object as it was. *)
Definition keeps {A} (f : GameClient → A) : relation GameClient :=
  λ c c', f c' = f c.

(** A method returns and leaves the whole object as it was. *)
Definition restores {A} (m : M A) : Prop :=
  ∀ c, ∃ a t, m c = (Normal a, c, t).

(** What is drawn between [save] and [restore] may set styles and
    transform, provided it leaves everything else, the stack of saved
    states included, alone. *)
Definition styling (m : M unit) : Prop :=
  ∀ c, ∃ st t,
    m c = (Normal (), set_ctx c {| cur := st; saved := saved (ctx c) |}, t).

(** What follows a [save] up to its [restore]: run on a non-empty stack, it
    ends with the top of the stack as current state and the rest as stack,
    and everything else as it was. *)
Definition closing (m : M unit) : Prop :=
  ∀ c st0 rest, saved (ctx c) = st0 :: rest →
    ∃ t, m c = (Normal (), set_ctx c {| cur := st0; saved := rest |}, t).

(** The background image has not failed to decode. *)
Definition backgroundUsable (c : GameClient) : Prop :=
  ∀ img, worldImage c = Some img → status img ≠ Broken.

(** A double that is a number: NaN is the one value that differs from
    itself. *)
Definition isNumber (f : float) : Prop := (f =? f)%float = true.

(** A direction leads towards a point displaced by [(deltaX, deltaY)]: it
    is the sign of the displacement on its own axis (screen ordinates grow
    downwards). *)
Definition towards (d : Direction) (deltaX deltaY : float) : Prop :=
  match d with
  | DirRight => (0 <? deltaX)%float = true
  | DirLeft => (deltaX <? 0)%float = true
  | DirDown => (0 <? deltaY)%float = true
  | DirUp => (deltaY <? 0)%float = true
  end.

(** The key that stands for a direction. *)
Definition arrow (d : Direction) : string :=
  match d with
  | DirUp => "ArrowUp"
  | DirDown => "ArrowDown"
  | DirLeft => "ArrowLeft"
  | DirRight => "ArrowRight"
  end.

(** The list [directions] that [sendMoveCommand] builds. *)
Definition heldDirections (keys : gset string) : list Direction :=
  (if has keys "ArrowUp" then [DirUp] else []) ++
  (if has keys "ArrowDown" then [DirDown] else []) ++
  (if has keys "ArrowLeft" then [DirLeft] else []) ++
  (if has keys "ArrowRight" then [DirRight] else []).

(** The frame [drawAvatar] looks up for a player: the avatar's decoded
    frames, the set of the facing (east for west), the animation index. *)
Definition resolvedFrame (c : GameClient) (player : Player) : option Img :=
  pf ← avatars c !! avatar player ≫= parsedFrames;
  fs ← frameSet pf (match facing player with west => east | d => d end);
  fs !! animationFrame player.

(** The socket has been opened at some time. *)
Definition opened (c : GameClient) : Prop :=
  websocket c = Some OPEN ∨ websocket c = Some CLOSING ∨ websocket c = Some CLOSED.

(** A local player id is only known on a socket that has been opened. *)
Definition joinedOnOpened (c : GameClient) : Prop :=
  is_Some (myPlayerId c) → opened c.

(** Only arrow keys are recorded as held. *)
Definition onlyArrows (c : GameClient) : Prop :=
  ∀ k, k ∈ keysPressed c → k ∈ arrowKeys.

(** The status shown agrees with the socket. *)
Definition statusAgrees (c : GameClient) : Prop :=
  (connectionStatus c = StConnecting →
     websocket c = None ∨ websocket c = Some CONNECTING) ∧
  (connectionStatus c = StConnected →
     websocket c = Some OPEN ∨ websocket c = Some CLOSING) ∧
  (websocket c = Some CLOSED →
     connectionStatus c = StDisconnected ∨ connectionStatus c = StError).

(** *** Sample sessions *)

Definition fox : Avatar :=
  {| name := "fox";
     frames := {| f_north := ["n0"]; f_south := ["s0"; "s1"]; f_east := ["e0"] |};
     parsedFrames := None |}.

Definition biraj : Player :=
  {| id := "p1"; x := 500; y := 500; facing := west; animationFrame := 0;
     username := "Biraj"; avatar := "fox" |}.

Definition guest (gx gy : Q) : Player :=
  {| id := "p2"; x := gx; y := gy; facing := south; animationFrame := 1;
     username := "Guest"; avatar := "fox" |}.

(** The client after the listeners of [es] have run, in a window of the
    given size. *)
Definition play (innerWidth innerHeight : Q) (es : list Event) : GameClient :=
  foldl (λ c e, after (dispatch e c)) (after (constructor innerWidth innerHeight true)) es.

Definition joining : list Event :=
  [WsOpen;
   WsMessage (JoinGameOk "p1" {["p1" := biraj]} {["fox" := fox]});
   WorldImageSettled (Complete 2048 2048);
   FrameSettled "fox" east 0 (Complete 64 32)].

(** Joined in a window of 1200 x 1100: the camera is at (0, 0). *)
Definition joined : GameClient := play 1200 1100 joining.

(** Joined in a window wider than the world. *)
Definition joinedWide : GameClient := play 3000 600 joining.

(** The roster update that brings the player next to the point clicked. *)
Definition arrival : Event :=
  WsMessage (PlayersMoved
    {["p1" := {| id := "p1"; x := 890; y := 500; facing := east;
                 animationFrame := 2; username := "Biraj"; avatar := "fox" |}]}).

(** A click at (900, 500), far to the right of the player. *)
Definition homing : GameClient :=
  play 1200 1100 (joining ++ [Click 900 500 0 0]).

(** The same, and the player has arrived near the target. *)
Definition arrived : GameClient :=
  play 1200 1100 (joining ++ [Click 900 500 0 0; arrival]).

(** The two sessions after the socket has closed. *)
Definition homingClosed : GameClient :=
  play 1200 1100 (joining ++ [Click 900 500 0 0; WsClose]).

Definition arrivedClosed : GameClient :=
  play 1200 1100 (joining ++ [Click 900 500 0 0; arrival; WsClose]).

(** The joined session with the local player moved to [(mx, my)] and the
    click target at [(tx, ty)]. *)
Definition standing (mx my tx ty : Q) : GameClient :=
  set_clickTarget
    (set_players joined
       {["p1" := {| id := "p1"; x := mx; y := my; facing := south;
                    animationFrame := 0; username := "Biraj"; avatar := "fox" |}]})
    (Some {| px := tx; py := ty |}).

(** Joined, but the background image failed to load. *)
Definition noBackground : GameClient :=
  play 1200 1100
    [WsOpen;
     WsMessage (JoinGameOk "p1" {["p1" := biraj]} {["fox" := fox]});
     WorldImageSettled Broken].

(** Up and right are pressed, up is released: right is still held. *)
Definition holdingRight : GameClient :=
  play 1200 1100
    (joining ++ [KeyDown "ArrowUp"; KeyDown "ArrowRight"; KeyUp "ArrowUp"]).

(** * Properties *)

Ltac unfold_M :=
  unfold mbind, M_bind, mret, M_ret, get, assign, emit, throw, skip, when,
    completion, after, trace in *.

Lemma bind_get {A} (k : GameClient → M A) (c : GameClient) :
  (get ≫= k) c = k c c.
Proof. unfold_M. by destruct (k c c) as [[r c'] t]. Qed.

Lemma bind_assign {A} (f : GameClient → GameClient) (k : unit → M A) (c : GameClient) :
  (assign f ≫= k) c = k () (f c).
Proof. unfold_M. by destruct (k () (f c)) as [[r c'] t]. Qed.

Lemma bind_skip {A} (k : unit → M A) (c : GameClient) :
  (skip ≫= k) c = k () c.
Proof. unfold skip. unfold_M. by destruct (k () c) as [[r c'] t]. Qed.

Lemma bind_emit {A} (e : Effect) (k : unit → M A) (c : GameClient) :
  (emit e ≫= k) c =
    (completion (k () c), after (k () c), e :: trace (k () c)).
Proof. unfold_M. by destruct (k () c) as [[r c'] t]. Qed.

Lemma bind_run {A B} (m : M A) (k : A → M B) (c c1 : GameClient) (a : A)
    (t1 : list Effect) :
  m c = (Normal a, c1, t1) →
  (m ≫= k) c = (completion (k a c1), after (k a c1), t1 ++ trace (k a c1)).
Proof.
  intros H. unfold mbind, M_bind. rewrite H. unfold completion, after, trace.
  by destruct (k a c1) as [[r c'] t].
Qed.

(** ** Comparisons *)

Lemma Qgtb_true (a b : Q) : Qgtb a b = true ↔ b < a.
Proof.
  unfold Qgtb, Qltb. destruct (Qlt_le_dec b a) as [H | H]; split; intros; try done.
  exfalso. lra.
Qed.

Lemma Qgtb_false (a b : Q) : Qgtb a b = false ↔ a <= b.
Proof.
  unfold Qgtb, Qltb. destruct (Qlt_le_dec b a) as [H | H]; split; intros; try done.
  exfalso. lra.
Qed.

Lemma Qltb_true (a b : Q) : Qltb a b = true ↔ a < b.
Proof. apply (Qgtb_true b a). Qed.

Lemma Qltb_false (a b : Q) : Qltb a b = false ↔ b <= a.
Proof. apply (Qgtb_false b a). Qed.

Lemma Qgeb_true (a b : Q) : Qgeb a b = true ↔ b <= a.
Proof.
  unfold Qgeb. destruct (Qlt_le_dec a b) as [H | H]; split; intros; try done.
  exfalso. lra.
Qed.


Lemma clamp_bounds (v hi : Q) : 0 <= hi → 0 <= Qmax 0 (Qmin v hi) ∧ Qmax 0 (Qmin v hi) <= hi.
Proof.
  intros Hhi. split.
  - apply Q.le_max_l.
  - apply Q.max_lub; [done | apply Q.le_min_r].
Qed.

(** ** The camera *)

Section Camera.
Variable c : GameClient.

Lemma updateCamera_run (p : Player) :
  localPlayer c = Some p →
  updateCamera c =
    (Normal (),
     set_cameraY
       (set_cameraX c (cameraAxis (x p) (width c) (worldWidth c)))
       (cameraAxis (y p) (height c) (worldHeight c)),
     []).
Proof.
  intros Hp. unfold updateCamera, cameraAxis. unfold_M. rewrite Hp. cbn.
  destruct (Qgtb (worldWidth c) (width c)); cbn;
    destruct (Qgtb (worldHeight c) (height c)); reflexivity.
Qed.

Lemma updateCamera_none :
  localPlayer c = None → updateCamera c = (Normal (), c, []).
Proof. intros Hp. unfold updateCamera. unfold_M. by rewrite Hp. Qed.

(** Whatever the guard decides, only the camera offset can change. *)
Lemma updateCamera_frame :
  ∃ cx cy, updateCamera c = (Normal (), set_cameraY (set_cameraX c cx) cy, []).
Proof.
  destruct (localPlayer c) as [p |] eqn:Hp.
  - eexists _, _. by apply updateCamera_run.
  - exists (cameraX c), (cameraY c). rewrite updateCamera_none by done.
    by destruct c.
Qed.

End Camera.

(** C1. With a local player present, [updateCamera] returns with the camera
    centred on the player and then, on each axis by itself, clamped into
    [0, world - viewport] exactly when the world is larger than the
    viewport; on an axis where it is not, the offset is the centred one,
    unclamped. *)
Theorem C1_updateCamera_centre_then_clamp (c : GameClient) (p : Player) :
  localPlayer c = Some p →
  let c' := after (updateCamera c) in
  completion (updateCamera c) = Normal () ∧
  (width c < worldWidth c →
     cameraX c' = Qmax 0 (Qmin (x p - width c / 2) (worldWidth c - width c)) ∧
     0 <= cameraX c' ∧ cameraX c' <= worldWidth c - width c) ∧
  (worldWidth c <= width c → cameraX c' = x p - width c / 2) ∧
  (height c < worldHeight c →
     cameraY c' = Qmax 0 (Qmin (y p - height c / 2) (worldHeight c - height c)) ∧
     0 <= cameraY c' ∧ cameraY c' <= worldHeight c - height c) ∧
  (worldHeight c <= height c → cameraY c' = y p - height c / 2).
Proof.
  intros Hp c'. subst c'. rewrite (updateCamera_run c p Hp).
  unfold completion, after, cameraAxis. simpl.
  split; [done |]. split; [| split; [| split]]; intros H.
  - pose proof H as H'. apply Qgtb_true in H' as ->.
    split; [done | apply clamp_bounds; lra].
  - by apply Qgtb_false in H as ->.
  - pose proof H as H'. apply Qgtb_true in H' as ->.
    split; [done | apply clamp_bounds; lra].
  - by apply Qgtb_false in H as ->.
Qed.

(** In a 1200 x 1100 window the player at (500, 500) is nearer to the
    world's corner than half the window, and both axes are clamped to 0; in
    a window 3000 wide the horizontal offset is 500 - 1500, unclamped. *)
Lemma C1_witness :
  (cameraX (after (updateCamera joined)) = Qmax 0 (Qmin (500 - 1200 / 2) (2048 - 1200)) ∧
   cameraY (after (updateCamera joined)) = Qmax 0 (Qmin (500 - 1100 / 2) (2048 - 1100))) ∧
  cameraX (after (updateCamera joinedWide)) = 500 - 3000 / 2.
Proof.
  split.
  - destruct (C1_updateCamera_centre_then_clamp joined biraj) as (_ & Hx & _ & Hy & _).
    + vm_compute. reflexivity.
    + destruct Hx as [Hx _]; [vm_compute; reflexivity |].
      destruct Hy as [Hy _]; [vm_compute; reflexivity |].
      split; [exact Hx | exact Hy].
  - destruct (C1_updateCamera_centre_then_clamp joinedWide biraj) as (_ & _ & Hx & _).
    + vm_compute. reflexivity.
    + apply Hx. vm_compute. discriminate.
Defined.

(** ** Inbound messages *)



(** C7, as the code has it.  A rejected join is reported on the console and
    changes nothing: the connection status, the local player id, the
    roster, the avatar catalogue and the camera are what they were. *)
Theorem C7_join_failure_only_logs (c : GameClient) (error : string) :
  handleServerMessage (JoinGameFail error) c =
    (Normal (), c, [ConsoleError ("Join game failed: " +:+ error)]).
Proof. reflexivity. Qed.

(** C7 as stated fails: after a rejected join the status is still
    [connected], not [error]. *)
Lemma C7_counterexample :
  connectionStatus (play 800 600 [WsOpen]) = StConnected ∧
  connectionStatus
    (after (handleServerMessage (JoinGameFail "server full") (play 800 600 [WsOpen])))
    ≠ StError.
Proof. split; [vm_compute; reflexivity | vm_compute; discriminate]. Qed.

(** ** Rules for method bodies *)

Section Rules.
Context {A B : Type}.
Variable R : relation GameClient.
Variable E : Effect → Prop.

Lemma preserves_bind `{!Transitive R} (m : M A) (k : A → M B) :
  preserves R m → (∀ a, preserves R (k a)) → preserves R (m ≫= k).
Proof.
  intros Hm Hk c. specialize (Hm c). unfold_M.
  destruct (m c) as [[[a | e] c1] t1]; simpl in *; [| done].
  specialize (Hk a c1). destruct (k a c1) as [[r c2] t2]; simpl in *.
  by etrans.
Qed.

Lemma returning_bind (m : M A) (k : A → M B) :
  returning E m → (∀ a, returning E (k a)) → returning E (m ≫= k).
Proof.
  intros Hm Hk c. destruct (Hm c) as [[a Ha] Ht].
  destruct (m c) as [[r1 c1] t1] eqn:Hmc.
  destruct (Hk a c1) as [[b Hb] Ht2].
  destruct (k a c1) as [[r2 c2] t2] eqn:Hkc.
  unfold_M. simpl in *. rewrite Hmc, Ha, Hkc, Hb. simpl.
  split; [by eexists | by apply Forall_app].
Qed.

End Rules.

Section Primitives.
Variable R : relation GameClient.
Variable E : Effect → Prop.

Lemma preserves_get `{!Reflexive R} : preserves R get.
Proof. intros c. unfold after. simpl. reflexivity. Qed.

Lemma preserves_skip `{!Reflexive R} : preserves R skip.
Proof. intros c. unfold after. simpl. reflexivity. Qed.

Lemma preserves_emit `{!Reflexive R} (e : Effect) : preserves R (emit e).
Proof. intros c. unfold after. simpl. reflexivity. Qed.

Lemma preserves_throw `{!Reflexive R} {A} (e : Exn) : preserves R (throw (A:=A) e).
Proof. intros c. unfold after. simpl. reflexivity. Qed.

Lemma preserves_assign (f : GameClient → GameClient) :
  (∀ c, R c (f c)) → preserves R (assign f).
Proof. intros Hf c. apply Hf. Qed.

Lemma preserves_forEach `{!PreOrder R} {V} (l : list V) (body : V → M unit) :
  (∀ v, preserves R (body v)) → preserves R (forEach l body).
Proof.
  intros Hb. unfold forEach. induction l as [| v l IH]; simpl.
  - apply preserves_skip.
  - apply preserves_bind; [apply _ | apply Hb | intros _; apply IH].
Qed.

Lemma preserves_for_in `{!PreOrder R} {V} (obj : gmap string V) (body : string → V → M unit) :
  (∀ k v, preserves R (body k v)) → preserves R (for_in obj body).
Proof.
  intros Hb. unfold for_in. induction (map_to_list obj) as [| kv l IH]; simpl.
  - apply preserves_skip.
  - apply preserves_bind; [apply _ | apply Hb | intros _; apply IH].
Qed.

Lemma returning_get : returning E get.
Proof. intros c. split; [by eexists | constructor]. Qed.

Lemma returning_skip : returning E skip.
Proof. intros c. split; [by eexists | constructor]. Qed.

Lemma returning_assign (f : GameClient → GameClient) : returning E (assign f).
Proof. intros c. split; [by eexists | constructor]. Qed.

Lemma returning_emit (e : Effect) : E e → returning E (emit e).
Proof. intros He c. split; [by eexists | by repeat constructor]. Qed.

Lemma returning_forEach {V} (l : list V) (body : V → M unit) :
  (∀ v, returning E (body v)) → returning E (forEach l body).
Proof.
  intros Hb. unfold forEach. induction l as [| v l IH]; simpl.
  - apply returning_skip.
  - apply returning_bind; [apply Hb | intros _; apply IH].
Qed.

Lemma returning_for_in {V} (obj : gmap string V) (body : string → V → M unit) :
  (∀ k v, returning E (body k v)) → returning E (for_in obj body).
Proof.
  intros Hb. unfold for_in. induction (map_to_list obj) as [| kv l IH]; simpl.
  - apply returning_skip.
  - apply returning_bind; [apply Hb | intros _; apply IH].
Qed.

End Primitives.

(** Walks through a method body with the rules above. *)
Ltac returning_steps :=
  repeat first
    [ apply returning_skip
    | apply returning_get
    | apply returning_assign
    | apply returning_emit; exact I
    | apply returning_for_in; intros
    | apply returning_forEach; intros
    | apply returning_bind; [| intros]
    | progress unfold when, canvas, set_cur, ctx_save, ctx_restore,
        ctx_setTransform, ctx_scale, usable, ctx_drawImage5, ctx_drawImage9
    | case_match ].

(** ** Drawing only draws *)

Lemma drawLabel_returning (player : Player) (screenPos : Point) (avatarHeight : Q) :
  returning is_canvas (drawLabel player screenPos avatarHeight).
Proof. unfold drawLabel. returning_steps. Qed.

(** An image whose decoding failed has no size to draw it at: its width
    reads NaN, and [drawImage] returns before it looks at the image. *)
Lemma avatarSize_not_broken (avatarImg : Img) (avatarWidth avatarHeight : Q) :
  avatarSize avatarImg = (Some avatarWidth, avatarHeight) → status avatarImg ≠ Broken.
Proof.
  unfold avatarSize, img_width, img_height. intros Hsize Hst.
  rewrite Hst in Hsize. discriminate.
Qed.

Lemma drawAvatar_returning (player : Player) : returning is_canvas (drawAvatar player).
Proof.
  unfold drawAvatar. returning_steps;
    first [ apply drawLabel_returning
          | exfalso; eapply avatarSize_not_broken; eassumption ].
Qed.







(** ** The render loop *)






(** ** Outbound commands *)

Lemma sendStopCommand_not_open (c : GameClient) :
  notOpen c = true → sendStopCommand c = (Normal (), c, []).
Proof. intros H. unfold sendStopCommand. unfold_M. by rewrite H. Qed.

Lemma sendStopCommand_open (c : GameClient) :
  websocket c = Some OPEN →
  sendStopCommand c = (Normal (), set_isMoving c false, [WsSend MsgStop]).
Proof.
  intros H. unfold sendStopCommand, notOpen, websocket_send. unfold_M.
  rewrite H. simpl. by rewrite H.
Qed.

Lemma sendMoveCommand_not_open (c : GameClient) :
  notOpen c = true → sendMoveCommand c = (Normal (), c, []).
Proof. intros H. unfold sendMoveCommand. unfold_M. by rewrite H. Qed.

Lemma sendClickMoveCommand_not_open (c : GameClient) (tx ty : Q) :
  notOpen c = true → sendClickMoveCommand tx ty c = (Normal (), c, []).
Proof. intros H. unfold sendClickMoveCommand. unfold_M. by rewrite H. Qed.

(** ** Click-to-move *)

Section Homing.
Variable c : GameClient.
Variables (target : Point) (myPlayer : Player).
Hypothesis Htarget : clickTarget c = Some target.
Hypothesis Hplayer : localPlayer c = Some myPlayer.

Let deltaX := (toDouble (px target) - toDouble (x myPlayer))%float.
Let deltaY := (toDouble (py target) - toDouble (y myPlayer))%float.
Let distance := PrimFloat.sqrt (deltaX * deltaX + deltaY * deltaY).

Lemma homing_arrived :
  (distance <? 20)%float = true →
  startMovingToTarget c = sendStopCommand (set_clickTarget c None).
Proof.
  intros Hnear.
  unfold startMovingToTarget. rewrite bind_get, Htarget, Hplayer. cbv zeta.
  fold deltaX deltaY. fold distance. rewrite Hnear.
  by rewrite bind_assign.
Qed.

Lemma homing_far (d : Direction) :
  (distance <? 20)%float = false →
  d = (if (PrimFloat.abs deltaY <? PrimFloat.abs deltaX)%float
       then (if (0 <? deltaX)%float then DirRight else DirLeft)
       else (if (0 <? deltaY)%float then DirDown else DirUp)) →
  startMovingToTarget c =
    match websocket c with
    | None => (Thrown TypeError, c, [])
    | Some CONNECTING => (Thrown InvalidStateError, c, [])
    | Some OPEN =>
        (Normal (), set_isMoving c true,
         [WsSend (MsgMove d); SetTimeout CbStartMovingToTarget 200])
    | Some _ =>
        (Normal (), set_isMoving c true,
         [WsDiscard (MsgMove d); SetTimeout CbStartMovingToTarget 200])
    end.
Proof.
  intros Hfar ->.
  unfold startMovingToTarget. rewrite bind_get, Htarget, Hplayer. cbv zeta.
  fold deltaX deltaY. fold distance. rewrite Hfar.
  unfold websocket_send. unfold_M.
  by destruct (websocket c) as [[] |].
Qed.

End Homing.

(** C5, as the code has it.  A homing step with a target set and a local
    player present, the distance being the one the step computes
    ([Math.sqrt(deltaX * deltaX + deltaY * deltaY)], in doubles): when it is
    less than 20, the step clears the target, schedules nothing, and sends
    [stop] if the socket is open and nothing if it is not; when it is not
    less than 20 and the socket is open, the step sends one [move] along the
    dominant axis of the delta and schedules itself again in 200 ms, the
    target staying. *)
Theorem C5_homing_step (c : GameClient) (target : Point) (myPlayer : Player) :
  clickTarget c = Some target →
  localPlayer c = Some myPlayer →
  let deltaX := (toDouble (px target) - toDouble (x myPlayer))%float in
  let deltaY := (toDouble (py target) - toDouble (y myPlayer))%float in
  let distance := PrimFloat.sqrt (deltaX * deltaX + deltaY * deltaY) in
  let r := startMovingToTarget c in
  ((distance <? 20)%float = true →
     completion r = Normal () ∧
     clickTarget (after r) = None ∧
     trace r = if notOpen c then [] else [WsSend MsgStop]) ∧
  ((distance <? 20)%float = false →
   websocket c = Some OPEN →
     completion r = Normal () ∧
     clickTarget (after r) = Some target ∧
     ∃ d, trace r = [WsSend (MsgMove d); SetTimeout CbStartMovingToTarget 200] ∧
       ((PrimFloat.abs deltaY <? PrimFloat.abs deltaX)%float = true →
          (0 <? deltaX)%float = true → d = DirRight) ∧
       ((PrimFloat.abs deltaY <? PrimFloat.abs deltaX)%float = true →
          (0 <? deltaX)%float = false → d = DirLeft) ∧
       ((PrimFloat.abs deltaY <? PrimFloat.abs deltaX)%float = false →
          (0 <? deltaY)%float = true → d = DirDown) ∧
       ((PrimFloat.abs deltaY <? PrimFloat.abs deltaX)%float = false →
          (0 <? deltaY)%float = false → d = DirUp)).
Proof.
  intros Htarget Hplayer deltaX deltaY distance r. subst r. split.
  - intros Hnear.
    rewrite (homing_arrived c target myPlayer Htarget Hplayer Hnear).
    destruct (notOpen c) eqn:Hopen.
    + rewrite sendStopCommand_not_open by done. done.
    + assert (websocket c = Some OPEN) as Hws.
      { unfold notOpen in Hopen. by destruct (websocket c) as [[] |]. }
      rewrite sendStopCommand_open by done. done.
  - intros Hfar Hws.
    rewrite (homing_far c target myPlayer Htarget Hplayer _ Hfar eq_refl), Hws.
    unfold completion, after, trace. simpl.
    split; [done |]. split; [done |]. eexists. split; [reflexivity |].
    fold deltaX deltaY.
    split; [| split; [| split]]; intros -> ->; reflexivity.
Qed.

(** With the socket open: 10 units from the target the step sends [stop]
    and clears the target; 400 units to its left it sends [move right] and
    schedules itself again. *)
Lemma C5_witness :
  (clickTarget (after (startMovingToTarget arrived)) = None ∧
   trace (startMovingToTarget arrived) = [WsSend MsgStop]) ∧
  trace (startMovingToTarget homing) =
    [WsSend (MsgMove DirRight); SetTimeout CbStartMovingToTarget 200].
Proof.
  split.
  - destruct (C5_homing_step arrived {| px := 900; py := 500 |}
                {| id := "p1"; x := 890; y := 500; facing := east;
                   animationFrame := 2; username := "Biraj"; avatar := "fox" |})
      as [H _]; [vm_compute; reflexivity | vm_compute; reflexivity |].
    destruct H as (_ & Hc & Ht); [vm_compute; reflexivity |].
    split; [exact Hc | exact Ht].
  - destruct (C5_homing_step homing {| px := 900; py := 500 |} biraj)
      as [_ H]; [vm_compute; reflexivity | vm_compute; reflexivity |].
    destruct H as (_ & _ & d & Ht & Hr & _);
      [vm_compute; reflexivity | vm_compute; reflexivity |].
    rewrite Ht, Hr; [reflexivity | vm_compute; reflexivity | vm_compute; reflexivity].
Defined.

(** C5 as stated fails: the player is 10 units from the target, so the step
    clears the target, but the socket has closed and no [stop] is sent. *)
Lemma C5_counterexample :
  clickTarget arrivedClosed = Some {| px := 900; py := 500 |} ∧
  (x <$> localPlayer arrivedClosed) = Some 890 ∧
  (y <$> localPlayer arrivedClosed) = Some 500 ∧
  clickTarget (after (startMovingToTarget arrivedClosed)) = None ∧
  trace (startMovingToTarget arrivedClosed) = [].
Proof. vm_compute. done. Qed.

(** The threshold is the one the source computes.  From (0, 0) to
    (12, 15.999999999999998) the exact distance is below 20, but the square
    root computed is 20 and the step moves; from
    (59.939910244648445, 34.15833925132506) to
    (67.86335907057486, 15.794816748740613) the exact distance is above 20,
    but the square root computed is below it and the step stops.  (The
    doubles are written as the fractions they are.) *)
Lemma homing_threshold_is_computed :
  (let ty := 9007199254740991 # 562949953421312 in
   (12 - 0) * (12 - 0) + (ty - 0) * (ty - 0) < 20 * 20 ∧
   trace (startMovingToTarget (standing 0 0 12 ty)) =
     [WsSend (MsgMove DirDown); SetTimeout CbStartMovingToTarget 200]) ∧
  (let mx := 8435792420075616 # 140737488355328 in
   let my := 4807358872620704 # 140737488355328 in
   let tx := 4775459353474236 # 70368744177664 in
   let ty := 8891691353001687 # 562949953421312 in
   20 * 20 < (tx - mx) * (tx - mx) + (ty - my) * (ty - my) ∧
   trace (startMovingToTarget (standing mx my tx ty)) = [WsSend MsgStop] ∧
   clickTarget (after (startMovingToTarget (standing mx my tx ty))) = None).
Proof. vm_compute. done. Qed.

(** ** What happens to the click target *)

#[local] Instance targetKeptOrCleared_preorder : PreOrder targetKeptOrCleared.
Proof.
  split.
  - intros c. unfold targetKeptOrCleared. auto.
  - intros c1 c2 c3 (Hw1 & Hh1 & Ht1) (Hw2 & Hh2 & Ht2).
    unfold targetKeptOrCleared. rewrite Hw2, Hh2, Hw1, Hh1.
    split; [done |]. split; [done |].
    destruct Ht2 as [-> | ->]; auto.
Qed.

Ltac kept_step :=
  lazymatch goal with
  | |- preserves _ (mbind _ _) => apply preserves_bind; [apply _ | | intros]
  | |- preserves _ skip => apply preserves_skip; apply _
  | |- preserves _ get => apply preserves_get; apply _
  | |- preserves _ (emit _) => apply preserves_emit; apply _
  | |- preserves _ (throw _) => apply preserves_throw; apply _
  | |- preserves _ (assign _) =>
      apply preserves_assign; intros ?; unfold targetKeptOrCleared;
      repeat case_match; simpl; by auto
  | |- preserves _ (for_in _ _) => apply preserves_for_in; [apply _ | intros]
  | |- preserves _ (forEach _ _) => apply preserves_forEach; [apply _ | intros]
  | |- preserves _ (when _ _) => unfold when
  | |- preserves _ (canvas _) => unfold canvas
  | |- preserves _ (set_cur _) => unfold set_cur
  | |- preserves _ ctx_save => unfold ctx_save
  | |- preserves _ ctx_restore => unfold ctx_restore
  | |- preserves _ (ctx_setTransform _ _ _ _ _ _) => unfold ctx_setTransform
  | |- preserves _ (usable _ _) => unfold usable
  | |- preserves _ (ctx_drawImage5 _ _ _ _ _) => unfold ctx_drawImage5
  | |- preserves _ (ctx_drawImage9 _ _ _ _ _ _ _ _ _) => unfold ctx_drawImage9
  | |- preserves _ (websocket_send _) => unfold websocket_send
  | |- preserves _ (decodeAll _ _ _) => unfold decodeAll
  | |- preserves _ (drawLabel _ _ _) => unfold drawLabel
  | |- preserves _ (drawClickTarget _) => unfold drawClickTarget
  | |- preserves _ (drawAvatar _) => unfold drawAvatar
  | |- preserves _ drawUI => unfold drawUI
  | |- preserves _ (update _) => unfold update
  | |- preserves _ joinGame => unfold joinGame
  end.

Ltac kept_steps := repeat first [kept_step | eassumption | case_match].

Lemma sendStopCommand_kept : preserves targetKeptOrCleared sendStopCommand.
Proof. unfold sendStopCommand. kept_steps. Qed.

Lemma startMovingToTarget_kept : preserves targetKeptOrCleared startMovingToTarget.
Proof.
  pose proof sendStopCommand_kept. unfold startMovingToTarget. kept_steps.
Qed.

(** ** Sessions *)

Lemma reachable_deliver (c : GameClient) (es : list Event) :
  reachable c → deliverable c es →
  reachable (foldl (λ c e, after (dispatch e c)) c es).
Proof.
  revert c. induction es as [| e es IH]; intros c Hc Hes; simpl; [done |].
  destruct Hes as [He Hes]. apply IH; [by constructor | done].
Qed.

(** The sample sessions are states the client can reach. *)
Lemma sample_sessions_reachable :
  reachable joined ∧ reachable homing ∧ reachable arrived ∧
  reachable homingClosed ∧ reachable arrivedClosed.
Proof.
  unfold joined, homing, arrived, homingClosed, arrivedClosed, play.
  repeat apply conj;
    (apply reachable_deliver;
     [apply reachable_new | vm_compute; intuition (eauto || discriminate)]).
Qed.

(** ** The west-facing sprite *)

Lemma of_N_pos (n : N) : n ≠ 0%N → 0 < inject_Z (Z.of_N n).
Proof. intros H. unfold Qlt. simpl. lia. Qed.

Lemma Qeq_bool_pos (a : Q) : 0 < a → Qeq_bool a 0 = false.
Proof.
  intros H. destruct (Qeq_bool a 0) eqn:E; [| done].
  apply Qeq_bool_iff in E. exfalso. lra.
Qed.

(** A decoded frame is drawn with a positive width. *)
Lemma avatarSize_decoded (avatarImg : Img) (w h : N) :
  status avatarImg = Complete w h → w ≠ 0%N → h ≠ 0%N →
  ∃ avatarWidth avatarHeight,
    avatarSize avatarImg = (Some avatarWidth, avatarHeight) ∧ 0 < avatarWidth.
Proof.
  intros Hst Hw Hh. unfold avatarSize, img_width, img_height. rewrite Hst.
  pose proof (of_N_pos w Hw) as Hwq. pose proof (of_N_pos h Hh) as Hhq.
  cbv zeta. rewrite (Qeq_bool_pos _ Hhq).
  destruct (Qgtb _ 1); eexists _, _; (split; [reflexivity |]); [done |].
  apply Qmult_lt_0_compat; [done |].
  apply Qlt_shift_div_l; [done | lra].
Qed.

(** Mirroring user space about [x = 0] and moving it to [screenX] sends the
    rectangle [[-w/2, w/2]] onto [[screenX - w/2, screenX + w/2]]. *)
Lemma mirrored_extent (img : Img) (screenX dy w h sw sh : Q) :
  0 < w →
  ∃ lo hi,
    xExtent (Blit img {| ma := -1; mb := 0; mc := 0; md := 1; me := screenX; mf := 0 |}
               0 0 sw sh (- w / 2) dy w h) = Some (lo, hi) ∧
    lo == screenX - w / 2 ∧ hi == screenX + w / 2.
Proof.
  intros Hw. eexists _, _. split; [reflexivity |].
  unfold device_x. simpl.
  set (a := -1 * (- w / 2) + 0 * dy + screenX).
  set (b := -1 * (- w / 2 + w) + 0 * dy + screenX).
  set (a' := -1 * (- w / 2) + 0 * (dy + h) + screenX).
  set (b' := -1 * (- w / 2 + w) + 0 * (dy + h) + screenX).
  assert (a == screenX + w / 2) as Ha by (unfold a; field).
  assert (b == screenX - w / 2) as Hb by (unfold b; field).
  assert (a' == screenX + w / 2) as Ha' by (unfold a'; field).
  assert (b' == screenX - w / 2) as Hb' by (unfold b'; field).
  assert (0 < w / 2) as Hhalf by (apply Qlt_shift_div_l; lra).
  set (half := w / 2) in *. clearbody a b a' b' half. split.
  - destruct (Q.min_spec a b) as [[? E1] | [? E1]],
      (Q.min_spec a' b') as [[? E2] | [? E2]],
      (Q.min_spec (Qmin a b) (Qmin a' b')) as [[? E3] | [? E3]]; lra.
  - destruct (Q.max_spec a b) as [[? E1] | [? E1]],
      (Q.max_spec a' b') as [[? E2] | [? E2]],
      (Q.max_spec (Qmax a b) (Qmax a' b')) as [[? E3] | [? E3]]; lra.
Qed.

Section West.
Variable c : GameClient.
Variable player : Player.
Variables (av : Avatar) (pf : Frames Img) (avatarImg : Img) (w h : N).
Hypothesis Hwest : facing player = west.
Hypothesis Hav : avatars c !! avatar player = Some av.
Hypothesis Hpf : parsedFrames av = Some pf.
Hypothesis Hframe : f_east pf !! animationFrame player = Some avatarImg.
Hypothesis Hst : status avatarImg = Complete w h.
Hypothesis Hw : w ≠ 0%N.
Hypothesis Hh : h ≠ 0%N.
Hypothesis Hvisible : offScreen c (worldToScreen c (x player) (y player)) = false.

Lemma drawAvatar_west_blits (avatarWidth avatarHeight : Q) :
  avatarSize avatarImg = (Some avatarWidth, avatarHeight) →
  blits (trace (drawAvatar player c)) =
    [Blit avatarImg
       {| ma := -1; mb := 0; mc := 0; md := 1; me := x player - cameraX c; mf := 0 |}
       0 0 (img_width avatarImg) (img_height avatarImg)
       (- avatarWidth / 2) (y player - cameraY c - avatarHeight / 2)
       avatarWidth avatarHeight].
Proof.
  intros Hsize. unfold drawAvatar. unfold_M.
  rewrite Hav. cbn. rewrite Hpf, Hvisible, Hwest. cbn.
  rewrite Hframe, Hsize. cbn.
  unfold ctx_drawImage5, usable. rewrite Hst.
  assert (((w =? 0) || (h =? 0))%N = false) as ->.
  { apply orb_false_iff. split; by apply N.eqb_neq. }
  reflexivity.
Qed.

End West.

(** X22. The current revision.  A west-facing player whose east frame is
    decoded and who is on screen: [drawAvatar] returns and paints one image,
    the frame found in the east set, under a transform that reflects user
    space about the vertical line through the player's own screen abscissa
    [x - cameraX].  The rectangle painted is [avatarWidth] wide around
    abscissa 0 of user space, so its left edge lands at [screenX +
    avatarWidth / 2], its right edge at [screenX - avatarWidth / 2], and the
    image covers the [avatarWidth] units centred on [screenX]. *)
Theorem west_sprite_is_east_frame_mirrored
    (c : GameClient) (player : Player) (av : Avatar) (pf : Frames Img)
    (avatarImg : Img) (w h : N) :
  facing player = west →
  avatars c !! avatar player = Some av →
  parsedFrames av = Some pf →
  f_east pf !! animationFrame player = Some avatarImg →
  status avatarImg = Complete w h → w ≠ 0%N → h ≠ 0%N →
  offScreen c (worldToScreen c (x player) (y player)) = false →
  let screenX := x player - cameraX c in
  let screenY := y player - cameraY c in
  let T := {| ma := -1; mb := 0; mc := 0; md := 1; me := screenX; mf := 0 |} in
  ∃ avatarWidth avatarHeight lo hi,
    avatarSize avatarImg = (Some avatarWidth, avatarHeight) ∧
    completion (drawAvatar player c) = Normal () ∧
    blits (trace (drawAvatar player c)) =
      [Blit avatarImg T 0 0 (img_width avatarImg) (img_height avatarImg)
         (- avatarWidth / 2) (screenY - avatarHeight / 2) avatarWidth avatarHeight] ∧
    (∀ u v, device_x T u v == screenX - u ∧ device_y T u v == v) ∧
    device_x T (- avatarWidth / 2) 0 == screenX + avatarWidth / 2 ∧
    device_x T (- avatarWidth / 2 + avatarWidth) 0 == screenX - avatarWidth / 2 ∧
    xExtent (Blit avatarImg T 0 0 (img_width avatarImg) (img_height avatarImg)
               (- avatarWidth / 2) (screenY - avatarHeight / 2) avatarWidth avatarHeight)
      = Some (lo, hi) ∧
    lo == screenX - avatarWidth / 2 ∧
    hi == screenX + avatarWidth / 2.
Proof.
  intros Hwest Hav Hpf Hframe Hst Hw Hh Hvisible screenX screenY T.
  destruct (avatarSize_decoded avatarImg w h Hst Hw Hh)
    as (avatarWidth & avatarHeight & Hsize & Hpos).
  destruct (mirrored_extent avatarImg screenX
              (screenY - avatarHeight / 2) avatarWidth avatarHeight
              (img_width avatarImg) (img_height avatarImg) Hpos)
    as (lo & hi & Hext & Hlo & Hhi).
  exists avatarWidth, avatarHeight, lo, hi.
  split; [exact Hsize |].
  split; [destruct (drawAvatar_returning player c) as [[[] Hc] _]; exact Hc |].
  split; [by eapply drawAvatar_west_blits |].
  split; [intros u v; unfold device_x, device_y; simpl; split; ring |].
  split; [unfold device_x; simpl; field |].
  split; [unfold device_x; simpl; field |].
  split; [exact Hext |]. split; [exact Hlo | exact Hhi].
Qed.

(** The player at world (500, 500) with the camera at (0, 0): the east
    frame, 32 wide, is painted reflected about abscissa 500 and covers 484
    to 516. *)
Lemma west_sprite_witness :
  cameraX joined = 0 ∧ cameraY joined = 0 ∧
  ∃ avatarHeight lo hi,
    blits (trace (drawAvatar biraj joined)) =
      [Blit {| src := "e0"; status := Complete 64 32 |}
         {| ma := -1; mb := 0; mc := 0; md := 1; me := 500 - cameraX joined; mf := 0 |}
         0 0 (img_width {| src := "e0"; status := Complete 64 32 |})
         (img_height {| src := "e0"; status := Complete 64 32 |})
         (- 32 / 2) (500 - cameraY joined - avatarHeight / 2) 32 avatarHeight] ∧
    lo == 484 ∧ hi == 516.
Proof.
  split; [vm_compute; reflexivity |]. split; [vm_compute; reflexivity |].
  set (pf := {| f_north := [newImage "n0"];
                f_south := [newImage "s0"; newImage "s1"];
                f_east := [{| src := "e0"; status := Complete 64 32 |}] |}).
  destruct (west_sprite_is_east_frame_mirrored joined biraj
              (with_parsedFrames fox pf) pf
              {| src := "e0"; status := Complete 64 32 |} 64 32)
    as (avatarWidth & avatarHeight & lo & hi & Hsz & _ & Hb & _ & _ & _ & _ & Hlo & Hhi);
    [ reflexivity | vm_compute; reflexivity | reflexivity | reflexivity
    | reflexivity | discriminate | discriminate | vm_compute; reflexivity | ].
  assert (avatarWidth = 32) as -> by (vm_compute in Hsz; congruence).
  exists avatarHeight, lo, hi.
  split; [exact Hb |].
  split; [rewrite Hlo; vm_compute; reflexivity |].
  rewrite Hhi; vm_compute; reflexivity.
Defined.

(** In the earliest revision the frames of a west-facing player are looked
    up under [west], where there are none: nothing is drawn for that player,
    not even the label. *)
Lemma drawAvatar_rev0_west_draws_nothing (c : GameClient) (player : Player) :
  facing player = west → drawAvatar_rev0 player c = (Normal (), c, []).
Proof.
  intros Hwest. unfold drawAvatar_rev0. rewrite bind_get, Hwest.
  destruct (avatars c !! avatar player ≫= parsedFrames); [| reflexivity].
  destruct (offScreen c _); reflexivity.
Qed.

(** C3 fails on the earliest revision.  The west-facing player of the sample
    session stands at world (500, 500) with the camera at (0, 0), on screen,
    and the east frame of its avatar is decoded: [drawAvatar] of the
    earliest revision returns without drawing anything, where that of the
    current revision paints the east frame. *)
Theorem C3_rev0_west_sprite_is_not_drawn :
  (facing biraj = west ∧ x biraj = 500 ∧ y biraj = 500 ∧
   cameraX joined = 0 ∧ cameraY joined = 0) ∧
  (resolvedFrame joined biraj = Some {| src := "e0"; status := Complete 64 32 |} ∧
   offScreen joined (worldToScreen joined (x biraj) (y biraj)) = false) ∧
  drawAvatar_rev0 biraj joined = (Normal (), joined, []) ∧
  (blitImage <$> blits (trace (drawAvatar biraj joined))) =
    [Some {| src := "e0"; status := Complete 64 32 |}].
Proof.
  split; [vm_compute; done |]. split; [vm_compute; done |].
  split; [by apply drawAvatar_rev0_west_draws_nothing |].
  vm_compute. reflexivity.
Qed.

(** ** The decode pass *)

Lemma set_avatars_same (c : GameClient) : set_avatars c (avatars c) = c.
Proof. by destruct c. Qed.

Lemma forEach_emit {V} (l : list V) (g : V → Effect) (c : GameClient) :
  forEach l (λ v, emit (g v)) c = (Normal (), c, g <$> l).
Proof.
  unfold forEach. induction l as [| v l IH]; [done |].
  simpl. unfold_M. by rewrite IH.
Qed.

Lemma decodeAll_run (avatarName : string) (dir : Facing) (l : list string) (c : GameClient) :
  decodeAll avatarName dir l c = (Normal (), c, imap (DecodeFrame avatarName dir) l).
Proof.
  unfold decodeAll.
  rewrite (forEach_emit _ (λ f, DecodeFrame avatarName dir f.1 f.2)).
  by rewrite fmap_imap.
Qed.

Lemma parseAvatar_run (kv : string * Avatar) (c : GameClient) :
  parseAvatar kv.1 kv.2 c =
    (Normal (), set_avatars c (decodeEntry (avatars c) kv), decodeEvents kv).
Proof.
  destruct kv as [k a]. unfold parseAvatar, decodeEntry, decodeEvents, decoded.
  simpl. destruct (parsedFrames a) eqn:Hp.
  - by rewrite set_avatars_same.
  - unfold mbind, M_bind, assign. by rewrite !decodeAll_run.
Qed.

Lemma decode_loop_run (l : list (string * Avatar)) (c : GameClient) :
  foldr (λ kv rest, parseAvatar kv.1 kv.2 ;; rest) skip l c =
    (Normal (), set_avatars c (foldl decodeEntry (avatars c) l),
     flat_map decodeEvents l).
Proof.
  revert c. induction l as [| kv l IH]; intros c; simpl.
  - by rewrite set_avatars_same.
  - unfold mbind, M_bind at 1. rewrite parseAvatar_run, IH. by destruct c.
Qed.

Lemma decode_loop_lookup (l : list (string * Avatar)) (m : gmap string Avatar) (k : string) :
  NoDup l.*1 →
  foldl decodeEntry m l !! k =
    match (list_to_map l : gmap string Avatar) !! k with
    | Some a => match parsedFrames a with
                | Some _ => m !! k
                | None => Some (decoded a)
                end
    | None => m !! k
    end.
Proof.
  revert m. induction l as [| [k0 a0] l IH]; intros m Hnd; simpl; [done |].
  apply NoDup_cons in Hnd as [Hk0 Hnd]. rewrite IH by done.
  apply not_elem_of_list_to_map in Hk0. simpl in Hk0.
  destruct (decide (k = k0)) as [-> | Hne].
  - rewrite Hk0, lookup_insert_eq. unfold decodeEntry. simpl.
    destruct (parsedFrames a0); [done | by rewrite lookup_insert_eq].
  - rewrite lookup_insert_ne by done.
    assert (decodeEntry m (k0, a0) !! k = m !! k) as Hm.
    { unfold decodeEntry. simpl.
      destruct (parsedFrames a0); [done | by rewrite lookup_insert_ne]. }
    destruct (list_to_map l !! k) as [a |]; [| done].
    by destruct (parsedFrames a).
Qed.

(** The pass, as a whole: every entry is [decoded], and the decodings
    started are those of the entries without the marker. *)
Lemma parseAvatarImages_run (c : GameClient) :
  parseAvatarImages c =
    (Normal (), set_avatars c (decoded <$> avatars c),
     flat_map decodeEvents (map_to_list (avatars c))).
Proof.
  unfold parseAvatarImages. rewrite bind_get. unfold for_in.
  rewrite decode_loop_run. f_equal. f_equal. f_equal.
  apply map_eq. intros k.
  rewrite decode_loop_lookup by apply NoDup_fst_map_to_list.
  rewrite list_to_map_to_list, lookup_fmap.
  destruct (avatars c !! k) as [a |] eqn:Ha; simpl; [| done].
  unfold decoded. by destruct (parsedFrames a).
Qed.





(** The decodings started under one name, read off a trace. *)
Lemma decodingsOf_app (k : string) (t1 t2 : list Effect) :
  decodingsOf k (t1 ++ t2) = decodingsOf k t1 ++ decodingsOf k t2.
Proof.
  induction t1 as [| e t1 IH]; simpl; [done |].
  destruct e; try done. destruct (String.eqb _ _); simpl; by rewrite IH.
Qed.

Lemma decodingsOf_imap (k k' : string) (dir : Facing) (l : list string) :
  decodingsOf k (imap (DecodeFrame k' dir) l) =
    if String.eqb k' k then imap (DecodeFrame k' dir) l else [].
Proof.
  assert (∀ f : nat → string → Effect,
            (∀ i d, ∃ j, f i d = DecodeFrame k' dir j d) →
            decodingsOf k (imap f l) = if String.eqb k' k then imap f l else [])
    as H.
  { induction l as [| d l IH]; intros f Hf; simpl.
    - by destruct (String.eqb k' k).
    - destruct (Hf 0%nat d) as [j ->]. simpl.
      rewrite (IH (f ∘ S)) by (intros i d'; apply Hf).
      by destruct (String.eqb k' k). }
  apply H. intros i d. by exists i.
Qed.

Lemma decodingsOf_entry (k k' : string) (a : Avatar) :
  decodingsOf k (decodeEvents (k', a)) =
    if String.eqb k' k then decodeEvents (k', a) else [].
Proof.
  unfold decodeEvents. simpl. destruct (parsedFrames a).
  - by destruct (String.eqb k' k).
  - rewrite !decodingsOf_app, !decodingsOf_imap. by destruct (String.eqb k' k).
Qed.

Lemma decodingsOf_entries (k : string) (l : list (string * Avatar)) :
  NoDup l.*1 →
  decodingsOf k (flat_map decodeEvents l) =
    match (list_to_map l : gmap string Avatar) !! k with
    | Some a => decodeEvents (k, a)
    | None => []
    end.
Proof.
  induction l as [| [k0 a0] l IH]; intros Hnd; simpl; [done |].
  apply NoDup_cons in Hnd as [Hk0 Hnd].
  rewrite decodingsOf_app, decodingsOf_entry, IH by done.
  destruct (String.eqb_spec k0 k) as [-> | Hne].
  - rewrite lookup_insert_eq.
    apply not_elem_of_list_to_map in Hk0. simpl in Hk0. rewrite Hk0.
    by rewrite app_nil_r.
  - by rewrite lookup_insert_ne.
Qed.

Lemma is_decoding_entry (kv : string * Avatar) : Forall is_decoding (decodeEvents kv).
Proof.
  unfold decodeEvents. destruct (parsedFrames kv.2); [constructor |].
  rewrite !Forall_app. repeat split;
    apply Forall_forall; intros e He;
    apply list_elem_of_lookup in He as [i He];
    rewrite list_lookup_imap in He;
    destruct (_ !! i); simplify_eq/=; done.
Qed.

(** What a pass starts under one name: the decodings of the entry under
    that name, each once, when the entry carries no marker. *)
Lemma parseAvatarImages_trace (c : GameClient) (k : string) :
  decodingsOf k (trace (parseAvatarImages c)) =
    match avatars c !! k with
    | Some a => decodeEvents (k, a)
    | None => []
    end ∧
  Forall is_decoding (trace (parseAvatarImages c)).
Proof.
  rewrite parseAvatarImages_run. unfold trace. simpl. split.
  - rewrite decodingsOf_entries by apply NoDup_fst_map_to_list.
    by rewrite list_to_map_to_list.
  - induction (map_to_list (avatars c)) as [| kv l IH]; simpl; [constructor |].
    apply Forall_app. split; [apply is_decoding_entry | exact IH].
Qed.




(** * Further properties of the client *)

(** ** Components a method leaves alone *)

#[local] Instance keeps_preorder {A} (f : GameClient → A) : PreOrder (keeps f).
Proof.
  split.
  - by intros c.
  - intros c1 c2 c3 H1 H2. unfold keeps in *. by rewrite H2.
Qed.

Ltac keeps_step :=
  lazymatch goal with
  | |- preserves _ (mbind _ _) => apply preserves_bind; [apply _ | | intros]
  | |- preserves _ skip => apply preserves_skip; apply _
  | |- preserves _ get => apply preserves_get; apply _
  | |- preserves _ (emit _) => apply preserves_emit; apply _
  | |- preserves _ (throw _) => apply preserves_throw; apply _
  | |- preserves _ (assign _) =>
      apply preserves_assign; intros ?; unfold keeps;
      repeat case_match; reflexivity
  | |- preserves _ (for_in _ _) => apply preserves_for_in; [apply _ | intros]
  | |- preserves _ (forEach _ _) => apply preserves_forEach; [apply _ | intros]
  | |- preserves _ (when _ _) => unfold when
  | |- preserves _ (canvas _) => unfold canvas
  | |- preserves _ (set_cur _) => unfold set_cur
  | |- preserves _ ctx_save => unfold ctx_save
  | |- preserves _ ctx_restore => unfold ctx_restore
  | |- preserves _ (ctx_setTransform _ _ _ _ _ _) => unfold ctx_setTransform
  | |- preserves _ (usable _ _) => unfold usable
  | |- preserves _ (ctx_drawImage5 _ _ _ _ _) => unfold ctx_drawImage5
  | |- preserves _ (ctx_drawImage9 _ _ _ _ _ _ _ _ _) => unfold ctx_drawImage9
  | |- preserves _ (websocket_send _) => unfold websocket_send
  | |- preserves _ (decodeAll _ _ _) => unfold decodeAll
  | |- preserves _ (parseAvatar _ _) => unfold parseAvatar
  | |- preserves _ parseAvatarImages => unfold parseAvatarImages
  | |- preserves _ updateCamera => unfold updateCamera
  | |- preserves _ sendStopCommand => unfold sendStopCommand
  | |- preserves _ sendMoveCommand => unfold sendMoveCommand
  | |- preserves _ startMovingToTarget => unfold startMovingToTarget
  | |- preserves _ (sendClickMoveCommand _ _) => unfold sendClickMoveCommand
  | |- preserves _ (handleCanvasClick _ _ _ _) => unfold handleCanvasClick
  | |- preserves _ (handleKeyDown _) => unfold handleKeyDown
  | |- preserves _ (handleKeyUp _) => unfold handleKeyUp
  | |- preserves _ (onResize _ _) => unfold onResize
  | |- preserves _ (drawLabel _ _ _) => unfold drawLabel
  | |- preserves _ (drawClickTarget _) => unfold drawClickTarget
  | |- preserves _ (drawAvatar _) => unfold drawAvatar
  | |- preserves _ drawUI => unfold drawUI
  | |- preserves _ draw => unfold draw
  | |- preserves _ (update _) => unfold update
  | |- preserves _ (gameLoop _) => unfold gameLoop
  | |- preserves _ joinGame => unfold joinGame
  end.

Ltac keeps_steps := repeat first [keeps_step | case_match].

(** No method assigns the socket; only the platform moves its state. *)
Lemma handleServerMessage_keeps_websocket (message : InMsg) :
  preserves (keeps websocket) (handleServerMessage message).
Proof. unfold handleServerMessage. keeps_steps. Qed.

(** Apart from the socket's own events and the inbound messages, no
    listener touches the socket or the local player id. *)
Lemma dispatch_keeps_session (e : Event) :
  e ≠ WsOpen → e ≠ WsClosing → e ≠ WsClose → e ≠ WsError →
  (∀ m, e ≠ WsMessage m) →
  preserves (keeps (λ c, (myPlayerId c, websocket c))) (dispatch e).
Proof.
  intros H1 H2 H3 H4 H5. destruct e; simpl; try done;
    try (exfalso; by eapply H5); keeps_steps.
Qed.

Lemma websocket_send_open (m : OutMsg) (c : GameClient) :
  websocket c = Some OPEN → websocket_send m c = (Normal (), c, [WsSend m]).
Proof. intros H. unfold websocket_send. rewrite bind_get. by rewrite H. Qed.

Lemma forEach_send (l : list Direction) (c : GameClient) :
  websocket c = Some OPEN →
  forEach l (λ direction, websocket_send (MsgMove direction)) c =
    (Normal (), c, (λ d, WsSend (MsgMove d)) <$> l).
Proof.
  intros H. unfold forEach. induction l as [| d l IH]; [done |].
  simpl. rewrite (bind_run _ _ _ _ _ _ (websocket_send_open _ c H)).
  by rewrite IH.
Qed.

(** ** The keyboard *)

Lemma sendMoveCommand_open (c : GameClient) :
  websocket c = Some OPEN →
  sendMoveCommand c =
    (Normal (),
     if (0 <? length (heldDirections (keysPressed c)))%nat
     then set_isMoving c true else c,
     (λ d, WsSend (MsgMove d)) <$> heldDirections (keysPressed c)).
Proof.
  intros H. unfold sendMoveCommand. rewrite bind_get.
  assert (notOpen c = false) as -> by (unfold notOpen; by rewrite H).
  fold (heldDirections (keysPressed c)).
  rewrite (bind_run _ _ _ _ _ _ (forEach_send _ c H)). unfold when.
  destruct (0 <? _)%nat; unfold completion, after, trace; simpl;
    by rewrite app_nil_r.
Qed.

Lemma heldDirections_spec (keys : gset string) (d : Direction) :
  d ∈ heldDirections keys ↔ arrow d ∈ keys.
Proof.
  unfold heldDirections, has. rewrite !elem_of_app.
  split.
  - intros [H | [H | [H | H]]]; case_bool_decide;
      try (by apply elem_of_nil in H);
      apply list_elem_of_singleton in H as ->; done.
  - intros H. destruct d; simpl in H;
      [left | right; left | right; right; left | right; right; right];
      rewrite bool_decide_eq_true_2 by done; apply list_elem_of_singleton; done.
Qed.

Lemma heldDirections_NoDup (keys : gset string) : NoDup (heldDirections keys).
Proof.
  unfold heldDirections.
  destruct (has keys "ArrowUp"), (has keys "ArrowDown"),
    (has keys "ArrowLeft"), (has keys "ArrowRight"); simpl;
    repeat (apply NoDup_cons; split;
              [rewrite ?elem_of_cons, elem_of_nil; intuition discriminate |]);
    apply NoDup_nil_2.
Qed.

Lemma handleKey_other (c : GameClient) (code : string) :
  code ∉ arrowKeys →
  handleKeyDown code c = (Normal (), c, []) ∧
  handleKeyUp code c = (Normal (), c, []).
Proof.
  intros H. unfold handleKeyDown, handleKeyUp, includes.
  by rewrite bool_decide_eq_false_2.
Qed.

(** X1. A key that is not an arrow key is ignored by both handlers: nothing
    is recorded, nothing is sent, and the browser's default action is not
    suppressed. *)
Theorem other_keys_are_ignored (c : GameClient) (code : string) :
  code ∉ arrowKeys →
  handleKeyDown code c = (Normal (), c, []) ∧
  handleKeyUp code c = (Normal (), c, []).
Proof. apply handleKey_other. Qed.

Lemma other_keys_are_ignored_witness :
  handleKeyDown "KeyW" joined = (Normal (), joined, []) ∧
  handleKeyUp "KeyW" joined = (Normal (), joined, []).
Proof.
  apply other_keys_are_ignored. unfold arrowKeys.
  rewrite !elem_of_cons, elem_of_nil. intuition discriminate.
Defined.

(** X2. With the socket open, pressing an arrow key records it, suppresses
    the default action and sends one [move] for every arrow key then held,
    each once, in the order up, down, left, right; the client is moving
    afterwards. *)
Theorem keydown_sends_one_move_per_held_key (c : GameClient) (code : string) :
  code ∈ arrowKeys →
  websocket c = Some OPEN →
  let r := handleKeyDown code c in
  let held := {[code]} ∪ keysPressed c in
  completion r = Normal () ∧
  keysPressed (after r) = held ∧
  isMoving (after r) = true ∧
  trace r = PreventDefault :: ((λ d, WsSend (MsgMove d)) <$> heldDirections held) ∧
  NoDup (heldDirections held) ∧
  (∀ d, d ∈ heldDirections held ↔ arrow d ∈ held).
Proof.
  intros Hcode Hws r held. subst r.
  unfold handleKeyDown, includes. rewrite bool_decide_eq_true_2 by done. simpl.
  rewrite bind_emit, bind_assign.
  rewrite sendMoveCommand_open by done. simpl. fold held.
  assert ((0 <? length (heldDirections held))%nat = true) as ->.
  { apply Nat.ltb_lt.
    assert (∃ d, arrow d = code) as [d <-].
    { unfold arrowKeys in Hcode.
      rewrite !elem_of_cons, elem_of_nil in Hcode.
      destruct Hcode as [-> | [-> | [-> | [-> | []]]]];
        [by exists DirUp | by exists DirDown | by exists DirLeft | by exists DirRight]. }
    assert (d ∈ heldDirections held) as Hd.
    { apply heldDirections_spec. subst held.
      by apply elem_of_union_l, elem_of_singleton. }
    destruct (heldDirections held); [by apply elem_of_nil in Hd | simpl; lia]. }
  unfold completion, after, trace. simpl.
  repeat split; try done.
  - apply heldDirections_NoDup.
  - apply heldDirections_spec.
  - apply heldDirections_spec.
Qed.

Lemma keydown_witness :
  trace (handleKeyDown "ArrowRight" (play 1200 1100 (joining ++ [KeyDown "ArrowUp"]))) =
    [PreventDefault; WsSend (MsgMove DirUp); WsSend (MsgMove DirRight)].
Proof.
  destruct (keydown_sends_one_move_per_held_key
              (play 1200 1100 (joining ++ [KeyDown "ArrowUp"])) "ArrowRight")
    as (_ & _ & _ & Ht & _).
  - unfold arrowKeys. rewrite !elem_of_cons. auto.
  - vm_compute. reflexivity.
  - rewrite Ht. vm_compute. reflexivity.
Defined.

(** X3. Releasing an arrow key forgets it; if no key is held any more and
    the socket is open, exactly one [stop] is sent and the client is no
    longer moving; if another key is still held, or the socket is not open,
    nothing is sent at all (in particular no [move]). *)
Theorem keyup_sends_stop_when_last_key_released (c : GameClient) (code : string) :
  code ∈ arrowKeys →
  let r := handleKeyUp code c in
  let rest := keysPressed c ∖ {[code]} in
  completion r = Normal () ∧
  keysPressed (after r) = rest ∧
  (rest = ∅ → websocket c = Some OPEN →
     trace r = [WsSend MsgStop] ∧ isMoving (after r) = false) ∧
  (rest ≠ ∅ ∨ notOpen c = true →
     r = (Normal (), set_keysPressed c rest, [])).
Proof.
  intros Hcode r rest. subst r.
  unfold handleKeyUp, includes. rewrite bool_decide_eq_true_2 by done. simpl.
  rewrite bind_assign, bind_get. simpl. fold rest. unfold when.
  destruct (bool_decide (size rest = 0%nat)) eqn:Hsize.
  - apply bool_decide_eq_true in Hsize.
    apply size_empty_iff, leibniz_equiv_iff in Hsize.
    destruct (notOpen c) eqn:Hopen.
    + rewrite sendStopCommand_not_open by done.
      unfold completion, after, trace. simpl.
      split; [done |]. split; [done |]. split; [| done].
      intros _ Hws. unfold notOpen in Hopen. by rewrite Hws in Hopen.
    + assert (websocket c = Some OPEN) as Hws.
      { unfold notOpen in Hopen. by destruct (websocket c) as [[] |]. }
      rewrite sendStopCommand_open by done.
      unfold completion, after, trace. simpl.
      split; [done |]. split; [done |]. split; [done |].
      intros [Hne | Hno]; [done | discriminate].
  - apply bool_decide_eq_false in Hsize.
    unfold skip, mret, M_ret, completion, after, trace. simpl.
    split; [done |]. split; [done |]. split; [| done].
    intros Hrest. exfalso. apply Hsize. by rewrite Hrest.
Qed.

(** Up and right were held and up was released: releasing right sends the
    one [stop]; releasing up once more, with right still held, sends
    nothing. *)
Lemma keyup_witness :
  trace (handleKeyUp "ArrowRight" holdingRight) = [WsSend MsgStop] ∧
  trace (handleKeyUp "ArrowUp" holdingRight) = [].
Proof.
  split.
  - destruct (keyup_sends_stop_when_last_key_released holdingRight "ArrowRight")
      as (_ & _ & H & _).
    + unfold arrowKeys. rewrite !elem_of_cons. auto.
    + apply H; vm_compute; reflexivity.
  - destruct (keyup_sends_stop_when_last_key_released holdingRight "ArrowUp")
      as (_ & _ & _ & H).
    + unfold arrowKeys. rewrite !elem_of_cons. auto.
    + rewrite H; [reflexivity |]. left. intros Heq.
      assert ("ArrowRight" ∈ keysPressed holdingRight ∖ {["ArrowUp"]}) as Hin
        by (apply (bool_decide_unpack _); vm_compute; exact I).
      rewrite Heq in Hin. by apply not_elem_of_empty in Hin.
Defined.

(** ** What holds in every state the client can reach *)

Lemma dispatch_keeps_keysPressed (e : Event) :
  (∀ code, e ≠ KeyDown code) → (∀ code, e ≠ KeyUp code) →
  preserves (keeps keysPressed) (dispatch e).
Proof.
  intros Hd Hu. destruct e; simpl;
    try (exfalso; first [by eapply Hd | by eapply Hu]);
    try (unfold handleServerMessage); keeps_steps.
Qed.

(** X4. In every state the client can reach, the keys recorded as held are
    arrow keys. *)
Theorem held_keys_are_arrow_keys (c : GameClient) (k : string) :
  reachable c → k ∈ keysPressed c → k ∈ arrowKeys.
Proof.
  intros Hreach. revert k. change (onlyArrows c).
  induction Hreach as [w h constructed | c e _ IH Hen].
  - intros k. unfold constructor, loadWorldMap, connectToServer. unfold_M.
    destruct constructed; simpl; by intros ?%not_elem_of_empty.
  - destruct e as [| | | | | | code | code | | | | |];
      try (match goal with
           | |- onlyArrows (after (dispatch ?e c)) =>
               assert (preserves (keeps keysPressed) (dispatch e)) as Hk
                 by (apply dispatch_keeps_keysPressed; intros; discriminate)
           end;
           specialize (Hk c); unfold keeps in Hk;
           unfold onlyArrows; rewrite Hk; exact IH).
    + simpl. destruct (decide (code ∈ arrowKeys)) as [Hin | Hout].
      * unfold handleKeyDown, includes. rewrite bool_decide_eq_true_2 by done.
        simpl. rewrite bind_emit, bind_assign. unfold after at 1. simpl.
        assert (preserves (keeps keysPressed) sendMoveCommand) as Hs
          by keeps_steps.
        intros k. rewrite (Hs _). simpl.
        rewrite elem_of_union, elem_of_singleton. intros [-> | Hk]; auto.
      * by rewrite (proj1 (handleKey_other c code Hout)).
    + simpl. destruct (decide (code ∈ arrowKeys)) as [Hin | Hout].
      * unfold handleKeyUp, includes. rewrite bool_decide_eq_true_2 by done.
        simpl. rewrite bind_assign, bind_get.
        assert (preserves (keeps keysPressed) sendStopCommand) as Hs
          by keeps_steps.
        unfold when. intros k.
        destruct (bool_decide _);
          [rewrite (Hs _) | unfold after, skip, mret, M_ret]; simpl;
          rewrite elem_of_difference; intros [Hk _]; auto.
      * by rewrite (proj2 (handleKey_other c code Hout)).
Qed.

Lemma holdingRight_reachable : reachable holdingRight.
Proof.
  unfold holdingRight, play.
  apply reachable_deliver; [apply reachable_new |].
  vm_compute. intuition (eauto || discriminate).
Qed.

Lemma held_keys_witness :
  "ArrowRight" ∈ keysPressed holdingRight ∧ "ArrowRight" ∈ arrowKeys.
Proof.
  assert ("ArrowRight" ∈ keysPressed holdingRight) as Hin
    by (apply (bool_decide_unpack _); vm_compute; exact I).
  split; [exact Hin |].
  exact (held_keys_are_arrow_keys holdingRight "ArrowRight" holdingRight_reachable Hin).
Defined.

Lemma session_kept (c c' : GameClient) :
  keeps (λ c, (myPlayerId c, websocket c)) c c' →
  joinedOnOpened c → joinedOnOpened c'.
Proof.
  unfold keeps. intros [= Hid Hws]. unfold joinedOnOpened, opened.
  by rewrite Hid, Hws.
Qed.

Lemma reachable_joinedOnOpened (c : GameClient) : reachable c → joinedOnOpened c.
Proof.
  induction 1 as [w h constructed | c e _ IH Hen].
  - unfold constructor, loadWorldMap, connectToServer. unfold_M.
    destruct constructed; simpl; by intros [? [=]].
  - destruct e as [| | message | | | | | | | | | |];
      try (apply (session_kept c); [| exact IH];
           apply dispatch_keeps_session; intros; discriminate).
    + intros _. cbv [dispatch]. rewrite !bind_assign. unfold joinGame.
      rewrite websocket_send_open by done. by left.
    + intros _. pose proof (handleServerMessage_keeps_websocket message c) as Hws.
      unfold keeps in Hws. unfold opened. simpl dispatch. rewrite Hws.
      destruct Hen as [-> | ->]; auto.
    + intros _. right. by left.
    + intros _. cbv [dispatch]. rewrite bind_assign. right. by right.
    + intros _. cbv [dispatch]. rewrite bind_assign. right. by right.
Qed.

(** ** Commands on a socket that is not open *)

(** C6. In every state the client can reach, while the socket is not open:
    [sendMoveCommand] and [sendStopCommand] return at once, with the object
    as it was and nothing called; the homing step returns as well, and
    nothing it calls hands a message to the network (its [send], on a
    closing or closed socket, is dropped by the platform). *)
Theorem C6_nothing_is_sent_unless_open (c : GameClient) :
  reachable c →
  notOpen c = true →
  sendMoveCommand c = (Normal (), c, []) ∧
  sendStopCommand c = (Normal (), c, []) ∧
  completion (startMovingToTarget c) = Normal () ∧
  Forall (λ e, ¬ transmits e) (trace (startMovingToTarget c)).
Proof.
  intros Hreach Hclosed.
  split; [by apply sendMoveCommand_not_open |].
  split; [by apply sendStopCommand_not_open |].
  destruct (clickTarget c) as [target |] eqn:Ht;
    [destruct (localPlayer c) as [myPlayer |] eqn:Hp |].
  - assert (websocket c = Some CLOSING ∨ websocket c = Some CLOSED) as Hws.
    { destruct (reachable_joinedOnOpened c Hreach) as [Hws | Hws].
      - unfold localPlayer in Hp. by destruct (myPlayerId c).
      - unfold notOpen in Hclosed. by rewrite Hws in Hclosed.
      - exact Hws. }
    match goal with
    | |- context [startMovingToTarget] =>
        destruct (PrimFloat.sqrt
                    ((toDouble (px target) - toDouble (x myPlayer)) *
                     (toDouble (px target) - toDouble (x myPlayer)) +
                     (toDouble (py target) - toDouble (y myPlayer)) *
                     (toDouble (py target) - toDouble (y myPlayer))) <? 20)%float
          eqn:Hnear
    end.
    + rewrite (homing_arrived c target myPlayer Ht Hp Hnear).
      rewrite sendStopCommand_not_open by exact Hclosed. split; [done | constructor].
    + rewrite (homing_far c target myPlayer Ht Hp _ Hnear eq_refl).
      destruct Hws as [-> | ->]; (split; [done |]);
        repeat constructor; by intros [].
  - unfold startMovingToTarget. rewrite bind_get, Ht, Hp. split; [done | constructor].
  - unfold startMovingToTarget. rewrite bind_get, Ht. split; [done | constructor].
Qed.

(** The socket has closed while a target far from the player is set: the
    homing step returns, its [move] is dropped, and it schedules itself
    again; the keyboard's commands do nothing. *)
Lemma C6_witness :
  websocket homingClosed = Some CLOSED ∧
  sendMoveCommand homingClosed = (Normal (), homingClosed, []) ∧
  completion (startMovingToTarget homingClosed) = Normal () ∧
  trace (startMovingToTarget homingClosed) =
    [WsDiscard (MsgMove DirRight); SetTimeout CbStartMovingToTarget 200] ∧
  Forall (λ e, ¬ transmits e) (trace (startMovingToTarget homingClosed)).
Proof.
  destruct (C6_nothing_is_sent_unless_open homingClosed) as (Hm & _ & Hc & Ht).
  - apply sample_sessions_reachable.
  - vm_compute. reflexivity.
  - split; [vm_compute; reflexivity |]. split; [exact Hm |].
    split; [exact Hc |]. split; [vm_compute; reflexivity | exact Ht].
Defined.

Lemma dispatch_keeps_status (e : Event) :
  e ≠ WsOpen → e ≠ WsClosing → e ≠ WsClose → e ≠ WsError →
  preserves (keeps (λ c, (connectionStatus c, websocket c))) (dispatch e).
Proof.
  intros H1 H2 H3 H4. destruct e; simpl; try done;
    try (unfold handleServerMessage); keeps_steps.
Qed.

Lemma status_kept (c c' : GameClient) :
  keeps (λ c, (connectionStatus c, websocket c)) c c' →
  statusAgrees c → statusAgrees c'.
Proof.
  unfold keeps. intros [= Hst Hws]. unfold statusAgrees.
  by rewrite Hst, Hws.
Qed.

(** X6. In every state the client can reach, the status the overlay shows
    agrees with the socket: CONNECTING only before the socket is open,
    CONNECTED only while it is open or closing, and a closed socket shows
    DISCONNECTED or, between the [error] event of a failed connection and
    its [close] event, ERROR. *)
Theorem status_agrees_with_socket (c : GameClient) :
  reachable c →
  (connectionStatus c = StConnecting →
     websocket c = None ∨ websocket c = Some CONNECTING) ∧
  (connectionStatus c = StConnected →
     websocket c = Some OPEN ∨ websocket c = Some CLOSING) ∧
  (websocket c = Some CLOSED →
     connectionStatus c = StDisconnected ∨ connectionStatus c = StError).
Proof.
  intros Hreach. change (statusAgrees c).
  induction Hreach as [w h constructed | c e _ IH Hen].
  - unfold constructor, loadWorldMap, connectToServer. unfold_M.
    destruct constructed; simpl; unfold statusAgrees; simpl; intuition discriminate.
  - destruct e as [| | message | | | | | | | | | |];
      try (apply (status_kept c); [| exact IH];
           apply dispatch_keeps_status; intros; discriminate).
    + cbv [dispatch]. rewrite !bind_assign. unfold joinGame.
      rewrite websocket_send_open by done.
      unfold statusAgrees, after. simpl. intuition discriminate.
    + destruct IH as (H1 & H2 & H3). simpl in Hen.
      unfold statusAgrees, after. simpl. rewrite Hen in *.
      split; [| split]; [| auto | discriminate].
      intros Hs. destruct (H1 Hs); discriminate.
    + cbv [dispatch]. rewrite bind_assign.
      unfold statusAgrees, after. simpl. intuition discriminate.
    + cbv [dispatch]. rewrite bind_assign.
      unfold statusAgrees, after. simpl. intuition discriminate.
Qed.

(** The session whose socket has closed shows DISCONNECTED; a connection
    that fails while it is being set up shows ERROR, on a closed socket. *)
Lemma status_agrees_witness :
  (connectionStatus arrivedClosed = StDisconnected ∨
   connectionStatus arrivedClosed = StError) ∧
  websocket (play 800 600 [WsError]) = Some CLOSED ∧
  connectionStatus (play 800 600 [WsError]) = StError.
Proof.
  split; [| split; vm_compute; reflexivity].
  apply (status_agrees_with_socket arrivedClosed).
  - apply sample_sessions_reachable.
  - vm_compute. reflexivity.
Defined.

(** ** The roster *)

Lemma set_players_same (c : GameClient) : set_players c (players c) = c.
Proof. by destruct c. Qed.

(** X7. [player_left] removes the player under the id and no other; for an
    id that is not in the roster the whole client is left as it was. *)
Theorem player_left_removes_only_that_id (c : GameClient) (i : string) :
  let r := handleServerMessage (PlayerLeft i) c in
  completion r = Normal () ∧ trace r = [] ∧
  players (after r) !! i = None ∧
  (∀ j, j ≠ i → players (after r) !! j = players c !! j) ∧
  (players c !! i = None → after r = c).
Proof.
  intros r. subst r. unfold handleServerMessage, assign, completion, trace, after.
  simpl. split; [done |]. split; [done |].
  split; [apply lookup_delete_eq |].
  split; [intros j Hj; by apply lookup_delete_ne |].
  intros Hi. rewrite delete_id by done. apply set_players_same.
Qed.

Lemma player_left_witness :
  after (handleServerMessage (PlayerLeft "p9") joined) = joined.
Proof.
  apply (player_left_removes_only_that_id joined "p9"). vm_compute. reflexivity.
Defined.



(** X9. A successful [join_game] replaces what was there: the local id is
    the message's, the roster is the message's roster, the catalogue is the
    message's catalogue with every entry decoded; under each name the
    decodings started are those of the message's entry of that name, each
    frame once, if the entry carried no marker; and starting decodings is
    all it does: nothing is sent. *)
Theorem join_success_replaces_world
    (c : GameClient) (playerId : string) (ps : gmap string Player)
    (avs : gmap string Avatar) :
  let r := handleServerMessage (JoinGameOk playerId ps avs) c in
  completion r = Normal () ∧
  myPlayerId (after r) = Some playerId ∧
  players (after r) = ps ∧
  avatars (after r) = decoded <$> avs ∧
  (∀ k, decodingsOf k (trace r) =
          match avs !! k with
          | Some a => decodeEvents (k, a)
          | None => []
          end) ∧
  Forall is_decoding (trace r).
Proof.
  intros r. subst r. unfold handleServerMessage.
  rewrite !bind_assign, (bind_run _ _ _ _ _ _ (parseAvatarImages_run _)).
  unfold completion at 1, after at 1, trace at 1. simpl.
  destruct (updateCamera_frame
              (set_avatars
                 (set_avatars (set_players (set_myPlayerId c (Some playerId)) ps) avs)
                 (decoded <$> avs))) as (cx & cy & ->).
  unfold completion, after, trace. simpl. rewrite app_nil_r.
  split; [done |]. split; [done |]. split; [done |]. split; [done |].
  pose proof (parseAvatarImages_trace
                (set_avatars (set_players (set_myPlayerId c (Some playerId)) ps) avs))
    as Ht.
  rewrite parseAvatarImages_run in Ht. unfold trace in Ht. simpl in Ht.
  split; [intros k; apply Ht | apply (Ht "")].
Qed.

(** ** Clicks *)


Lemma click_outcome (c : GameClient) (clientX clientY rectLeft rectTop : Q) :
  let target :=
    {| px := Qmax 0 (Qmin (clientX - rectLeft + cameraX c) (worldWidth c));
       py := Qmax 0 (Qmin (clientY - rectTop + cameraY c) (worldHeight c)) |} in
  let r := handleCanvasClick clientX clientY rectLeft rectTop c in
  (notOpen c = true → r = (Normal (), set_clickTarget c (Some target), [])) ∧
  cameraX (after r) = cameraX c ∧ cameraY (after r) = cameraY c ∧
  (clickTarget (after r) = Some target ∨ clickTarget (after r) = None).
Proof.
  intros target r. subst r.
  unfold handleCanvasClick, sendClickMoveCommand.
  rewrite bind_get. cbv zeta. fold target. rewrite bind_assign, bind_get.
  change (notOpen (set_clickTarget c (Some target))) with (notOpen c).
  destruct (notOpen c) eqn:Hopen.
  - unfold skip, mret, M_ret, after. simpl. auto.
  - rewrite bind_assign. split; [done |].
    assert (preserves (keeps (λ c, (cameraX c, cameraY c))) startMovingToTarget) as Hk
      by keeps_steps.
    pose proof (startMovingToTarget_kept
                  (set_clickTarget (set_clickTarget c (Some target)) (Some target)))
      as (_ & _ & Ht).
    match type of Ht with
    | context [after (startMovingToTarget ?c2)] =>
        specialize (Hk c2); unfold keeps in Hk; simpl in Hk;
        injection Hk as Hx Hy
    end.
    simpl in Ht. auto.
Qed.

(** X10. A click while the socket is not open records the clamped world
    point as click target and does nothing else: no command is sent and no
    homing step is scheduled. *)
Theorem click_without_open_socket_only_marks
    (c : GameClient) (clientX clientY rectLeft rectTop : Q) :
  notOpen c = true →
  handleCanvasClick clientX clientY rectLeft rectTop c =
    (Normal (),
     set_clickTarget c
       (Some {| px := Qmax 0 (Qmin (clientX - rectLeft + cameraX c) (worldWidth c));
                py := Qmax 0 (Qmin (clientY - rectTop + cameraY c) (worldHeight c)) |}),
     []).
Proof. apply click_outcome. Qed.

Lemma click_without_open_socket_witness :
  trace (handleCanvasClick 10 10 0 0 homingClosed) = [] ∧
  clickTarget (after (handleCanvasClick 10 10 0 0 homingClosed)) =
    Some {| px := Qmax 0 (Qmin (10 - 0 + cameraX homingClosed) (worldWidth homingClosed));
            py := Qmax 0 (Qmin (10 - 0 + cameraY homingClosed) (worldHeight homingClosed)) |}.
Proof.
  rewrite (click_without_open_socket_only_marks homingClosed 10 10 0 0)
    by (vm_compute; reflexivity).
  split; reflexivity.
Defined.



(** ** Drawing leaves the client as it found it *)

Section Restores.
Context {A B : Type}.

Lemma restores_bind (m : M A) (k : A → M B) :
  restores m → (∀ a, restores (k a)) → restores (m ≫= k).
Proof.
  intros Hm Hk c. destruct (Hm c) as (a & t1 & Hmc).
  destruct (Hk a c) as (b & t2 & Hkc).
  exists b, (t1 ++ t2). rewrite (bind_run _ _ _ _ _ _ Hmc), Hkc. reflexivity.
Qed.

End Restores.

Lemma restores_get : restores get.
Proof. intros c. by eexists _, _. Qed.

Lemma restores_skip : restores skip.
Proof. intros c. by eexists _, _. Qed.

Lemma restores_emit (e : Effect) : restores (emit e).
Proof. intros c. by eexists _, _. Qed.

Lemma restores_canvas (op : DrawState → CanvasOp) : restores (canvas op).
Proof.
  unfold canvas. apply restores_bind; [apply restores_get |].
  intros c. apply restores_emit.
Qed.

Lemma restores_for_in {V} (obj : gmap string V) (body : string → V → M unit) :
  (∀ k v, restores (body k v)) → restores (for_in obj body).
Proof.
  intros Hb. unfold for_in. induction (map_to_list obj) as [| kv l IH]; simpl.
  - apply restores_skip.
  - apply restores_bind; [apply Hb | intros _; apply IH].
Qed.

Lemma restores_drawImage5 (img : Img) (avatarWidth : option Q) (avatarHeight : Q)
    (f : Q → Q) (dy : Q) :
  avatarSize img = (avatarWidth, avatarHeight) →
  restores (ctx_drawImage5 img (f <$> avatarWidth) dy avatarWidth avatarHeight).
Proof.
  intros Hsize. destruct avatarWidth as [w |]; [| apply restores_skip].
  apply avatarSize_not_broken in Hsize.
  unfold ctx_drawImage5, usable. simpl.
  repeat case_match; first [done | apply restores_skip | apply restores_canvas].
Qed.

Lemma restores_drawImage9 (img : Img) (sx sy sw sh dx dy dw dh : Q) :
  status img ≠ Broken →
  restores (ctx_drawImage9 img sx sy sw sh dx dy dw dh).
Proof.
  intros Hst. unfold ctx_drawImage9, usable.
  repeat case_match; first [done | apply restores_skip | apply restores_canvas].
Qed.

Lemma set_ctx_same (c : GameClient) :
  set_ctx c {| cur := cur (ctx c); saved := saved (ctx c) |} = c.
Proof. destruct c as [? ? [? ?] ? ? ? ? ? ? ? ? ? ? ? ? ? ? ?]. reflexivity. Qed.

Lemma restores_styling (m : M unit) : restores m → styling m.
Proof.
  intros Hm c. destruct (Hm c) as ([] & t & ->).
  exists (cur (ctx c)), t. by rewrite set_ctx_same.
Qed.

Lemma styling_set_cur (f : DrawState → DrawState) : styling (set_cur f).
Proof. intros c. by eexists _, _. Qed.

Lemma styling_bind (m : M unit) (k : unit → M unit) :
  styling m → styling (k ()) → styling (m ≫= k).
Proof.
  intros Hm Hk c. destruct (Hm c) as (st1 & t1 & Hmc).
  destruct (Hk (set_ctx c {| cur := st1; saved := saved (ctx c) |}))
    as (st2 & t2 & Hkc).
  exists st2, (t1 ++ t2). rewrite (bind_run _ _ _ _ _ _ Hmc), Hkc; reflexivity.
Qed.

Lemma closing_restore : closing ctx_restore.
Proof.
  intros c st0 rest Hs. exists []. unfold ctx_restore, assign. rewrite Hs. reflexivity.
Qed.

Lemma closing_restore_then (k : unit → M unit) :
  restores (k ()) → closing (ctx_restore ≫= k).
Proof.
  intros Hk c st0 rest Hs.
  destruct (Hk (set_ctx c {| cur := st0; saved := rest |})) as ([] & t & Hkc).
  exists t. unfold ctx_restore. rewrite bind_assign, Hs, Hkc. reflexivity.
Qed.

Lemma closing_bind (m : M unit) (k : unit → M unit) :
  styling m → closing (k ()) → closing (m ≫= k).
Proof.
  intros Hm Hk c st0 rest Hs. destruct (Hm c) as (st1 & t1 & Hmc).
  destruct (Hk (set_ctx c {| cur := st1; saved := saved (ctx c) |}) st0 rest)
    as (t2 & Hkc); [done |].
  exists (t1 ++ t2). rewrite (bind_run _ _ _ _ _ _ Hmc), Hkc; reflexivity.
Qed.

Lemma restores_save (k : unit → M unit) : closing (k ()) → restores (ctx_save ≫= k).
Proof.
  intros Hk c. unfold ctx_save. rewrite bind_assign.
  destruct (Hk (set_ctx c {| cur := cur (ctx c); saved := cur (ctx c) :: saved (ctx c) |})
              (cur (ctx c)) (saved (ctx c))) as (t & ->); [done |].
  exists (), t. f_equal. f_equal.
  transitivity (set_ctx c {| cur := cur (ctx c); saved := saved (ctx c) |});
    [reflexivity | apply set_ctx_same].
Qed.

Ltac bracket :=
  repeat first
    [ apply closing_restore
    | apply closing_bind
    | apply styling_bind
    | apply styling_set_cur
    | apply restores_styling
    | apply restores_canvas
    | apply restores_skip
    | eapply restores_drawImage5; eassumption ].

Lemma drawLabel_restores (player : Player) (screenPos : Point) (avatarHeight : Q) :
  restores (drawLabel player screenPos avatarHeight).
Proof. unfold drawLabel. apply restores_save. bracket. Qed.

Lemma drawClickTarget_restores (target : Point) : restores (drawClickTarget target).
Proof.
  unfold drawClickTarget. apply restores_bind; [apply restores_get | intros c].
  apply restores_save. bracket.
Qed.

Lemma drawUI_restores : restores drawUI.
Proof.
  unfold drawUI. apply restores_bind; [apply restores_get | intros c].
  apply restores_save. unfold when. destruct (isMoving c); bracket.
Qed.

Lemma drawAvatar_restores (player : Player) : restores (drawAvatar player).
Proof.
  unfold drawAvatar. apply restores_bind; [apply restores_get | intros c].
  repeat case_match; try apply restores_skip; subst;
    apply restores_save;
    (apply closing_bind;
     [| apply closing_restore_then, drawLabel_restores]);
    try (apply restores_styling, restores_save); bracket.
Qed.

(** What [draw] does after it has announced itself and read [this]. *)
Lemma draw_body_restores (c : GameClient) :
  backgroundUsable c →
  restores
    match worldImage c with
    | None => skip
    | Some img =>
        canvas (λ _, ClearRect 0 0 (width c) (height c));;
        ctx_drawImage9 img (cameraX c) (cameraY c) (width c) (height c)
          0 0 (width c) (height c);;
        match clickTarget c with
        | Some target => drawClickTarget target
        | None => skip
        end;;
        for_in (players c) (λ _ player, drawAvatar player);;
        drawUI
    end.
Proof.
  intros Hbg.
  destruct (worldImage c) as [img |] eqn:Himg; [| apply restores_skip].
  specialize (Hbg img Himg).
  apply restores_bind; [apply restores_canvas | intros _].
  apply restores_bind; [by apply restores_drawImage9 | intros _].
  apply restores_bind;
    [destruct (clickTarget c);
       [apply drawClickTarget_restores | apply restores_skip] | intros _].
  apply restores_bind; [| intros _; apply drawUI_restores].
  apply restores_for_in. intros. apply drawAvatar_restores.
Qed.

Lemma draw_restores (c : GameClient) :
  backgroundUsable c → ∃ t, draw c = (Normal (), c, t).
Proof.
  intros Hbg. unfold draw. rewrite bind_emit, bind_get.
  destruct (draw_body_restores c Hbg c) as ([] & t & ->).
  by eexists.
Qed.

(** X12. [draw] returns and leaves the client exactly as it found it: every
    [save] is matched by its [restore], so no transform or style set for
    one sprite, the target marker or the overlay outlives it, and nothing
    of the game state is touched. *)
Theorem draw_leaves_client_unchanged (c : GameClient) :
  backgroundUsable c →
  completion (draw c) = Normal () ∧ after (draw c) = c.
Proof. intros Hbg. by destruct (draw_restores c Hbg) as (t & ->). Qed.

Lemma draw_witness :
  completion (draw homing) = Normal () ∧ after (draw homing) = homing.
Proof.
  apply draw_leaves_client_unchanged.
  intros img Himg. vm_compute in Himg. injection Himg as <-. discriminate.
Defined.

(** X13. An executed frame changes nothing but the camera, recomputed by
    [updateCamera], and the last-frame timestamp. *)
Theorem frame_changes_camera_and_timestamp_only (c : GameClient) (currentTime : Q) :
  backgroundUsable c →
  1000 / targetFPS c <= currentTime - lastFrameTime c →
  after (gameLoop currentTime c) =
    set_lastFrameTime (after (updateCamera c)) currentTime.
Proof.
  intros Hbg Hge. apply Qgeb_true in Hge.
  unfold gameLoop, update, when. rewrite bind_get. cbv zeta. rewrite Hge.
  destruct (updateCamera_frame c) as (cx & cy & Hu). rewrite Hu.
  destruct (draw_restores (set_cameraY (set_cameraX c cx) cy) Hbg) as (t & Hd).
  unfold mbind, M_bind, emit, assign. rewrite Hu, Hd. reflexivity.
Qed.

Lemma frame_witness :
  after (gameLoop 17 joined) = set_lastFrameTime (after (updateCamera joined)) 17.
Proof.
  apply frame_changes_camera_and_timestamp_only.
  - intros img Himg. vm_compute in Himg. injection Himg as <-. discriminate.
  - vm_compute. discriminate.
Defined.

(** X23. With a background image whose decoding has failed, a tick that
    comes at or after the frame interval does not complete: [update] and
    [draw] are entered, the canvas is cleared, and [drawImage] throws on the
    failed image.  Only the camera, recomputed by [updateCamera], has
    changed; the last-frame timestamp is not set, nothing else is drawn,
    and the callback is not registered again. *)
Theorem frame_is_lost_on_failed_background
    (c : GameClient) (currentTime : Q) (img : Img) :
  worldImage c = Some img → status img = Broken →
  1000 / targetFPS c <= currentTime - lastFrameTime c →
  gameLoop currentTime c =
    (Thrown InvalidStateError, after (updateCamera c),
     [Enter MUpdate; Enter MDraw; Canvas (ClearRect 0 0 (width c) (height c))]).
Proof.
  intros Himg Hst Hge. apply Qgeb_true in Hge.
  unfold gameLoop, update, when. rewrite bind_get. cbv zeta. rewrite Hge.
  destruct (updateCamera_frame c) as (cx & cy & Hu). rewrite Hu.
  unfold draw, ctx_drawImage9, usable, canvas.
  unfold mbind, M_bind, emit, assign, get, throw, after. rewrite Hu. simpl.
  rewrite Himg. simpl. rewrite Hst. reflexivity.
Qed.

Lemma frame_is_lost_witness :
  lastFrameTime (after (gameLoop 17 noBackground)) = lastFrameTime noBackground ∧
  completion (gameLoop 17 noBackground) = Thrown InvalidStateError.
Proof.
  rewrite (frame_is_lost_on_failed_background noBackground 17
             {| src := "world.jpg"; status := Broken |});
    [| vm_compute; reflexivity | reflexivity | vm_compute; discriminate].
  split; [vm_compute; reflexivity | reflexivity].
Defined.

(** X14. A player whose screen position is outside the canvas widened by 50
    on every side, or for whom no frame is found (avatar unknown or not yet
    parsed, or no frame under the animation index), is skipped whole:
    neither sprite nor username is drawn, and nothing changes. *)
Theorem drawAvatar_skips_unseen_or_unresolved (c : GameClient) (player : Player) :
  offScreen c (worldToScreen c (x player) (y player)) = true ∨
  resolvedFrame c player = None →
  drawAvatar player c = (Normal (), c, []).
Proof.
  unfold drawAvatar, resolvedFrame. rewrite bind_get.
  destruct (avatars c !! avatar player ≫= parsedFrames) as [pf |];
    [| reflexivity].
  simpl. destruct (offScreen c _); [reflexivity |].
  intros [H | H]; [discriminate |].
  unfold mbind, option_bind in *. simpl in *.
  destruct (frameSet pf _) as [fs |]; [| reflexivity].
  by rewrite H.
Qed.

(** A player far outside the camera's view, and a player wearing an avatar
    the catalogue does not have. *)
Lemma drawAvatar_skips_witness :
  drawAvatar (guest 5000 5000) joined = (Normal (), joined, []) ∧
  drawAvatar
    {| id := "p3"; x := 10; y := 10; facing := north; animationFrame := 0;
       username := "Ghost"; avatar := "owl" |} joined = (Normal (), joined, []).
Proof.
  split; apply drawAvatar_skips_unseen_or_unresolved;
    [left | right]; vm_compute; reflexivity.
Defined.

(** ** More on the camera *)

(** X15. [updateCamera] is idempotent: the offset depends on the local
    player's position, the canvas and the world only, so a second call
    changes nothing. *)
Theorem updateCamera_idempotent (c : GameClient) :
  updateCamera (after (updateCamera c)) = (Normal (), after (updateCamera c), []).
Proof.
  destruct (localPlayer c) as [p |] eqn:Hp.
  - rewrite (updateCamera_run c p Hp). unfold after. simpl.
    rewrite (updateCamera_run _ p) by exact Hp. reflexivity.
  - rewrite (updateCamera_none c Hp). unfold after. simpl.
    by apply updateCamera_none.
Qed.

Lemma axis_keeps_in_view (pos viewport world : Q) :
  0 <= viewport → 0 <= pos → pos <= world →
  0 <= pos - cameraAxis pos viewport world ∧
  pos - cameraAxis pos viewport world <= viewport.
Proof.
  intros Hv H0 Hw. unfold cameraAxis.
  assert (0 <= viewport / 2) as Hhalf by (apply Qle_shift_div_l; lra).
  assert (viewport / 2 + viewport / 2 == viewport) as Hsum by field.
  set (half := viewport / 2) in *. clearbody half.
  destruct (Qgtb world viewport) eqn:Hgt; [| lra].
  apply Qgtb_true in Hgt.
  destruct (Q.min_spec (pos - half) (world - viewport)) as [[? E1] | [? E1]],
    (Q.max_spec 0 (Qmin (pos - half) (world - viewport))) as [[? E2] | [? E2]];
    lra.
Qed.

(** X16. After [updateCamera], a local player who stands in the world is
    inside the canvas, whatever the sizes of canvas and world: the camera
    never loses the player it follows, and [drawAvatar] does not cull it. *)
Theorem local_player_stays_in_view (c : GameClient) (p : Player) :
  localPlayer c = Some p →
  0 <= width c → 0 <= height c →
  0 <= x p → x p <= worldWidth c →
  0 <= y p → y p <= worldHeight c →
  let c' := after (updateCamera c) in
  let screenPos := worldToScreen c' (x p) (y p) in
  (0 <= px screenPos ∧ px screenPos <= width c) ∧
  (0 <= py screenPos ∧ py screenPos <= height c) ∧
  offScreen c' screenPos = false.
Proof.
  intros Hp Hw Hh Hx0 Hx1 Hy0 Hy1 c' screenPos. subst c' screenPos.
  rewrite (updateCamera_run c p Hp). unfold after, worldToScreen, offScreen.
  simpl.
  pose proof (axis_keeps_in_view (x p) (width c) (worldWidth c) Hw Hx0 Hx1) as [Ha Hb].
  pose proof (axis_keeps_in_view (y p) (height c) (worldHeight c) Hh Hy0 Hy1) as [Hc Hd].
  split; [done |]. split; [done |].
  rewrite !orb_false_iff. repeat split.
  - apply Qltb_false. lra.
  - apply Qgtb_false. lra.
  - apply Qltb_false. lra.
  - apply Qgtb_false. lra.
Qed.

Lemma local_player_in_view_witness :
  offScreen (after (updateCamera arrived))
    (worldToScreen (after (updateCamera arrived)) 890 500) = false.
Proof.
  apply (local_player_stays_in_view arrived
           {| id := "p1"; x := 890; y := 500; facing := east;
              animationFrame := 2; username := "Biraj"; avatar := "fox" |});
    vm_compute; (reflexivity || discriminate).
Defined.

(** ** More on sprites *)

(** X17. The decode pass gives an entry without marker one image per source
    frame, in the same order, for each of north, south and east: image [i]
    of a direction has frame [i] of that direction as its source and is not
    decoded yet. *)
Theorem decoded_frames_follow_sources
    (c : GameClient) (k : string) (a : Avatar) (dir : Facing) :
  avatars c !! k = Some a → parsedFrames a = None → dir ≠ west →
  ∃ pf,
    avatars (after (parseAvatarImages c)) !! k ≫= parsedFrames = Some pf ∧
    frameSet pf dir = Some (newImage <$> sourceFrames (frames a) dir).
Proof.
  intros Ha Hp Hdir. rewrite parseAvatarImages_run. unfold after. simpl.
  rewrite lookup_fmap, Ha. simpl. unfold decoded. rewrite Hp. simpl.
  eexists. split; [reflexivity |]. by destruct dir.
Qed.

Lemma decoded_frames_witness :
  ∃ pf,
    avatars (after (parseAvatarImages (set_avatars joined {["fox" := fox]}))) !! "fox"
      ≫= parsedFrames = Some pf ∧
    frameSet pf south = Some [newImage "s0"; newImage "s1"].
Proof.
  apply (decoded_frames_follow_sources
           (set_avatars joined {["fox" := fox]}) "fox" fox south);
    [reflexivity | reflexivity | discriminate].
Defined.

(** X18. A decoded frame is drawn in a box of 32 by 32 that it touches on
    its longer side: width and height are positive and at most 32; an image
    wider than high is drawn 32 wide, any other 32 high. *)
Theorem avatarSize_fits_box (avatarImg : Img) (w h : N) :
  status avatarImg = Complete w h → w ≠ 0%N → h ≠ 0%N →
  ∃ avatarWidth avatarHeight,
    avatarSize avatarImg = (Some avatarWidth, avatarHeight) ∧
    (0 < avatarWidth ∧ avatarWidth <= 32) ∧
    (0 < avatarHeight ∧ avatarHeight <= 32) ∧
    (img_height avatarImg < img_width avatarImg → avatarWidth = 32) ∧
    (img_width avatarImg <= img_height avatarImg → avatarHeight = 32).
Proof.
  intros Hst Hw Hh. unfold avatarSize, img_width, img_height. rewrite Hst.
  pose proof (of_N_pos w Hw) as Hwq. pose proof (of_N_pos h Hh) as Hhq.
  set (W := inject_Z (Z.of_N w)) in *. set (H := inject_Z (Z.of_N h)) in *.
  cbv zeta. rewrite (Qeq_bool_pos _ Hhq).
  assert (0 < W / H) as Hr by (apply Qlt_shift_div_l; [done | lra]).
  assert (H < W ↔ 1 < W / H) as Hwide.
  { split; intros Hlt.
    - apply Qlt_shift_div_l; [done | lra].
    - apply (Qmult_lt_r _ _ H) in Hlt; [| done].
      assert (W / H * H == W) as Hrh by (field; lra). lra. }
  destruct (Qgtb (W / H) 1) eqn:Hgt; eexists _, _; (split; [reflexivity |]).
  - apply Qgtb_true in Hgt.
    assert (0 < 32 / (W / H)) as H1 by (apply Qlt_shift_div_l; [done | lra]).
    assert (32 / (W / H) <= 32) as H2.
    { apply Qle_shift_div_r; [done |]. set (r := W / H) in *. clearbody r. lra. }
    split; [lra |]. split; [done |]. split; [done |].
    intros Hle. apply Hwide in Hgt. exfalso. lra.
  - apply Qgtb_false in Hgt.
    split; [set (r := W / H) in *; clearbody r; lra |].
    split; [lra |]. split; [| done].
    intros Hlt. apply Hwide in Hlt. exfalso. lra.
Qed.

(** A frame of 64 by 32 is drawn 32 wide and at most 32 high. *)
Lemma avatarSize_witness :
  ∃ avatarWidth avatarHeight,
    avatarSize {| src := "e0"; status := Complete 64 32 |} =
      (Some avatarWidth, avatarHeight) ∧
    avatarWidth = 32 ∧ avatarHeight <= 32.
Proof.
  destruct (avatarSize_fits_box
              {| src := "e0"; status := Complete 64 32 |} 64 32)
    as (aw & ah & Hs & _ & [_ Hh] & Hwide & _);
    [reflexivity | discriminate | discriminate |].
  exists aw, ah. split; [exact Hs |]. split; [| exact Hh].
  apply Hwide. vm_compute. reflexivity.
Defined.

(** X19. While the frame found for a visible player is not decoded yet, no
    image is painted for the player, but the username is: stroked, then
    filled, centred on the player's screen abscissa, 21 units (half the
    32-unit box and a gap of 5) above its screen ordinate. *)
Theorem pending_frame_draws_label_only (c : GameClient) (player : Player) (avatarImg : Img) :
  resolvedFrame c player = Some avatarImg →
  status avatarImg = Pending →
  offScreen c (worldToScreen c (x player) (y player)) = false →
  let screenX := x player - cameraX c in
  let textY := y player - cameraY c - 32 / 2 - 5 in
  ∃ st,
    trace (drawAvatar player c) =
      [Canvas (StrokeText st (username player) screenX textY);
       Canvas (FillText st (username player) screenX textY)] ∧
    fillStyle st = "white" ∧ strokeStyle st = "black" ∧
    lineWidth st = 2 ∧ font st = "12px Arial" ∧ textAlign st = "center".
Proof.
  intros Hframe Hst Hvis screenX textY.
  unfold drawAvatar. rewrite bind_get. unfold resolvedFrame in Hframe.
  destruct (avatars c !! avatar player ≫= parsedFrames) as [pf |]; [| done].
  simpl in Hframe. rewrite Hvis.
  destruct (frameSet pf _ ≫= _) as [img |] eqn:Hf; [| done].
  injection Hframe as ->.
  assert (avatarSize avatarImg = (None, 32)) as ->.
  { unfold avatarSize, img_width, img_height. by rewrite Hst. }
  eexists. unfold ctx_drawImage5.
  destruct (facing player); cbn; (split; [reflexivity | done]).
Qed.

(** The sample player before its east frame is decoded. *)
Lemma pending_frame_witness :
  blits (trace (drawAvatar biraj
                  (play 1200 1100
                     [WsOpen;
                      WsMessage (JoinGameOk "p1" {["p1" := biraj]} {["fox" := fox]})]))) = [].
Proof.
  destruct (pending_frame_draws_label_only
              (play 1200 1100
                 [WsOpen;
                  WsMessage (JoinGameOk "p1" {["p1" := biraj]} {["fox" := fox]})])
              biraj (newImage "e0")) as (st & -> & _);
    [vm_compute; reflexivity | reflexivity | vm_compute; reflexivity |].
  reflexivity.
Defined.

(** ** More on homing *)

(** Signs of doubles, from the specification of the comparisons. *)
Lemma double_negative (deltaX deltaY : float) :
  (PrimFloat.abs deltaY <? PrimFloat.abs deltaX)%float = true →
  (0 <? deltaX)%float = false → (deltaX <? 0)%float = true.
Proof.
  rewrite !FloatAxioms.ltb_spec, !FloatAxioms.abs_spec.
  change (Prim2SF 0) with (S754_zero false).
  destruct (Prim2SF deltaX) as [s | s | | s m e],
    (Prim2SF deltaY) as [s' | s' | | s' m' e'];
    try destruct s; try destruct s'; cbn; congruence.
Qed.

Lemma double_zero (f : float) :
  isNumber f → (0 <? f)%float = false → (f <? 0)%float = false →
  f = 0%float ∨ f = (-0)%float.
Proof.
  unfold isNumber. rewrite FloatAxioms.eqb_spec, !FloatAxioms.ltb_spec.
  change (Prim2SF 0) with (S754_zero false).
  intros Hn Hp Hm. rewrite <- (SF2Prim_Prim2SF f).
  destruct (Prim2SF f) as [s | s | | s m e]; try destruct s; cbn in *; try congruence.
  - by right.
  - by left.
Qed.

Lemma double_abs_zero (f : float) :
  isNumber f → (0 <? PrimFloat.abs f)%float = false →
  f = 0%float ∨ f = (-0)%float.
Proof.
  unfold isNumber.
  rewrite FloatAxioms.eqb_spec, !FloatAxioms.ltb_spec, FloatAxioms.abs_spec.
  change (Prim2SF 0) with (S754_zero false).
  intros Hn Hp. rewrite <- (SF2Prim_Prim2SF f).
  destruct (Prim2SF f) as [s | s | | s m e]; try destruct s; cbn in *; try congruence.
  - by right.
  - by left.
Qed.

(** A displacement that is zero on the axis chosen would be zero on both,
    and the distance would be 0. *)
Lemma double_far_negative (deltaX deltaY : float) :
  isNumber deltaX → isNumber deltaY →
  (PrimFloat.abs deltaY <? PrimFloat.abs deltaX)%float = false →
  (0 <? deltaY)%float = false →
  (PrimFloat.sqrt (deltaX * deltaX + deltaY * deltaY) <? 20)%float = false →
  (deltaY <? 0)%float = true.
Proof.
  intros Hx Hy Habs Hpos Hfar.
  destruct (deltaY <? 0)%float eqn:Hneg; [done |]. exfalso.
  assert (PrimFloat.abs deltaY = 0%float) as Ha.
  { destruct (double_zero deltaY Hy Hpos Hneg) as [-> | ->]; reflexivity. }
  rewrite Ha in Habs.
  destruct (double_abs_zero deltaX Hx Habs) as [-> | ->],
    (double_zero deltaY Hy Hpos Hneg) as [-> | ->];
    vm_compute in Hfar; discriminate.
Qed.

(** X20. The [move] a homing step sends leads towards the target, for the
    displacement the step computes (in doubles; it is a pair of numbers
    unless the coordinates are beyond the range of doubles): right only if
    the target is further right, left only if it is further left, down only
    if it is lower, up only if it is higher. *)
Theorem homing_moves_towards_target (c : GameClient) (target : Point) (myPlayer : Player) :
  clickTarget c = Some target →
  localPlayer c = Some myPlayer →
  websocket c = Some OPEN →
  let deltaX := (toDouble (px target) - toDouble (x myPlayer))%float in
  let deltaY := (toDouble (py target) - toDouble (y myPlayer))%float in
  let distance := PrimFloat.sqrt (deltaX * deltaX + deltaY * deltaY) in
  isNumber deltaX → isNumber deltaY →
  (distance <? 20)%float = false →
  ∃ d,
    trace (startMovingToTarget c) =
      [WsSend (MsgMove d); SetTimeout CbStartMovingToTarget 200] ∧
    towards d deltaX deltaY.
Proof.
  intros Ht Hp Hws deltaX deltaY distance Hx Hy Hfar.
  rewrite (homing_far c target myPlayer Ht Hp _ Hfar eq_refl), Hws.
  eexists. split; [reflexivity |]. fold deltaX deltaY.
  destruct (PrimFloat.abs deltaY <? PrimFloat.abs deltaX)%float eqn:Habs.
  - destruct (0 <? deltaX)%float eqn:Hsign; simpl; [done |].
    by eapply double_negative.
  - destruct (0 <? deltaY)%float eqn:Hsign; simpl; [done |].
    by apply (double_far_negative deltaX deltaY).
Qed.

Lemma homing_towards_witness :
  ∃ d,
    trace (startMovingToTarget homing) =
      [WsSend (MsgMove d); SetTimeout CbStartMovingToTarget 200] ∧
    towards d (toDouble 900 - toDouble 500) (toDouble 500 - toDouble 500).
Proof.
  apply (homing_moves_towards_target homing {| px := 900; py := 500 |} biraj);
    vm_compute; reflexivity.
Defined.

(** ** Resizing *)

(** X21. A resize takes the new size first and recomputes the camera after:
    with a local player present, the camera that results is the one centred
    and clamped for the new canvas, not for the old one. *)
Theorem resize_recomputes_camera_for_new_size
    (c : GameClient) (innerWidth innerHeight : Q) (p : Player) :
  localPlayer c = Some p →
  let r := onResize innerWidth innerHeight c in
  completion r = Normal () ∧
  width (after r) = innerWidth ∧ height (after r) = innerHeight ∧
  cameraX (after r) = cameraAxis (x p) innerWidth (worldWidth c) ∧
  cameraY (after r) = cameraAxis (y p) innerHeight (worldHeight c).
Proof.
  intros Hp r. subst r. unfold onResize. rewrite !bind_assign.
  rewrite (updateCamera_run _ p) by exact Hp. done.
Qed.

(** The window of the sample session grows to 3000 by 600: the camera goes
    from (0, 0) to (500 - 1500, 200). *)
Lemma resize_witness :
  cameraX (after (onResize 3000 600 joined)) = cameraAxis 500 3000 2048 ∧
  cameraY (after (onResize 3000 600 joined)) = cameraAxis 500 600 2048.
Proof.
  destruct (resize_recomputes_camera_for_new_size joined 3000 600 biraj)
    as (_ & _ & _ & Hx & Hy); [vm_compute; reflexivity |].
  split; [exact Hx | exact Hy].
Defined.
